(** * collection-api: the mutations of the database layer ([./mutations])

    A shallow embedding of the resolvers' mutation functions
    ([createAuthor], [updateAuthor], [createCollection], [updateCollection],
    [createCollectionStory], [updateCollectionStory], [deleteCollectionStory],
    [associateImageWithEntity]) over an explicit model of the relational store
    they reach through the ORM client.

    - a table is a list of rows with its auto-increment counter;
    - an [async] function is a state-and-exception computation ([Promise]);
      [await] is its bind; [throw] leaves the store as it is at that point;
    - every call on the ORM client is recorded, with the store it saw, so that
      the order of the calls and "no lookup, no write" can be stated. *)

From Stdlib Require Import ZArith List String Ascii Bool Lia Permutation Sorted.
Import ListNotations.

Local Open Scope Z_scope.
Local Open Scope list_scope.

(** ** Values *)

(** A [Date] is its number of milliseconds since the epoch. *)
Definition Date := Z.

(** The enum [CollectionStatus] of the schema (draft / published / archived). *)
Inductive CollectionStatus := draft | published | archived.

Definition CollectionStatus_eqb (a b : CollectionStatus) : bool :=
  match a, b with
  | draft, draft | published, published | archived, archived => true
  | _, _ => false
  end.

(** The enum [ImageEntityType]: the kind of row an image belongs to. *)
Inductive ImageEntityType := COLLECTION | COLLECTION_AUTHOR | COLLECTION_STORY.

(** [a || b] on a string that may be absent: [undefined] and the empty string
    are falsy. *)
Definition or_else (a : option string) (b : string) : string :=
  match a with
  | Some s => if String.eqb s EmptyString then b else s
  | None => b
  end.

(** What Prisma does with a field of [data] on update: [undefined] leaves the
    column as it is, a value overwrites it. *)
Definition assign {A : Type} (field : option A) (old : A) : A :=
  match field with
  | Some v => v
  | None => old
  end.

(** A field of an update input whose column may hold [null]: the field is
    absent ([undefined]), is [null], or has a value. The three are not the
    same to the client: an absent field leaves the column as it is, [null]
    clears it, a value overwrites it. *)
Inductive Optional (A : Type) :=
  | undefined
  | null
  | value (a : A).
Arguments undefined {A}.
Arguments null {A}.
Arguments value {A} _.

(** The range of a 32-bit integer column. *)
Definition int32 (z : Z) : bool := (- 2 ^ 31 <=? z) && (z <? 2 ^ 31).

(** The character U+0022, for the messages that quote a slug. *)
Definition dquote : string := String (ascii_of_nat 34) EmptyString.

(** ** Rows *)

Module CollectionAuthor.
Record t := mk {
  id : Z;
  externalId : string;
  name : string;
  slug : string;
  bio : option string;
  imageUrl : option string
}.
End CollectionAuthor.

Module Collection.
(** [authors] is the relation to [CollectionAuthor], held as the ids of the
    connected authors. *)
Record t := mk {
  id : Z;
  externalId : string;
  slug : string;
  title : string;
  status : CollectionStatus;
  publishedAt : option Date;
  authors : list Z
}.
End Collection.

Module CollectionStory.
Record t := mk {
  id : Z;
  externalId : string;
  collectionId : Z;
  url : string;
  title : string;
  excerpt : string;
  imageUrl : option string;
  publisher : option string
}.
End CollectionStory.

Module CollectionStoryAuthor.
(** The join rows between a story and its authors. *)
Record t := mk {
  id : Z;
  collectionStoryId : Z;
  name : string;
  sortOrder : Z
}.
End CollectionStoryAuthor.

Module Image.
Record t := mk {
  id : Z;
  path : string;
  entityId : option Z;
  entityType : option ImageEntityType
}.
End Image.

(** ** Tables *)

Module Table.
Record t (R : Type) := mk { rows : list R; nextId : Z }.
Arguments mk {R} _ _.
Arguments rows {R} _.
Arguments nextId {R} _.

Section Ops.
Context {R : Type}.

Definition empty : t R := mk [] 1.

Definition count (p : R -> bool) (tb : t R) : nat :=
  List.length (filter p (rows tb)).

Definition findUnique (p : R -> bool) (tb : t R) : option R :=
  find p (rows tb).

(** [create] appends the row built from the next id. *)
Definition create (data : Z -> R) (tb : t R) : t R * R :=
  let r := data (nextId tb) in
  (mk (rows tb ++ [r]) (nextId tb + 1), r).

(** The first row that matches is replaced. *)
Fixpoint replaceFirst (p : R -> bool) (f : R -> R) (l : list R) : list R :=
  match l with
  | [] => []
  | r :: l' => if p r then f r :: l' else r :: replaceFirst p f l'
  end.

Fixpoint removeFirst (p : R -> bool) (l : list R) : list R :=
  match l with
  | [] => []
  | r :: l' => if p r then l' else r :: removeFirst p l'
  end.

(** [update] and [delete] address one row; [None] when there is none. *)
Definition update (p : R -> bool) (f : R -> R) (tb : t R)
  : option (t R * R) :=
  match find p (rows tb) with
  | Some r => Some (mk (replaceFirst p f (rows tb)) (nextId tb), f r)
  | None => None
  end.

Definition delete (p : R -> bool) (tb : t R) : option (t R * R) :=
  match find p (rows tb) with
  | Some r => Some (mk (removeFirst p (rows tb)) (nextId tb), r)
  | None => None
  end.

Definition deleteMany (p : R -> bool) (tb : t R) : t R * nat :=
  (mk (filter (fun r => negb (p r)) (rows tb)) (nextId tb),
   count p tb).
End Ops.
End Table.

(** ** The store *)

Record Db := mkDb {
  collectionAuthor : Table.t CollectionAuthor.t;
  collection : Table.t Collection.t;
  collectionStory : Table.t CollectionStory.t;
  collectionStoryAuthor : Table.t CollectionStoryAuthor.t;
  image : Table.t Image.t
}.

Definition emptyDb : Db :=
  mkDb Table.empty Table.empty Table.empty Table.empty Table.empty.

Definition set_collectionAuthor (tb : Table.t CollectionAuthor.t) (d : Db) : Db :=
  mkDb tb (collection d) (collectionStory d) (collectionStoryAuthor d) (image d).

Definition set_collection (tb : Table.t Collection.t) (d : Db) : Db :=
  mkDb (collectionAuthor d) tb (collectionStory d) (collectionStoryAuthor d) (image d).

Definition set_collectionStory (tb : Table.t CollectionStory.t) (d : Db) : Db :=
  mkDb (collectionAuthor d) (collection d) tb (collectionStoryAuthor d) (image d).

Definition set_collectionStoryAuthor (tb : Table.t CollectionStoryAuthor.t) (d : Db) : Db :=
  mkDb (collectionAuthor d) (collection d) (collectionStory d) tb (image d).

Definition set_image (tb : Table.t Image.t) (d : Db) : Db :=
  mkDb (collectionAuthor d) (collection d) (collectionStory d) (collectionStoryAuthor d) tb.

(** ** Calls on the client, and what a run leaves behind *)

Inductive ModelName :=
  | collectionAuthor_ | collection_ | collectionStory_ | collectionStoryAuthor_ | image_.

Inductive Action := count | findUnique | create | update | delete | deleteMany.

Definition Call : Type := ModelName * Action.

Definition is_write (c : Call) : bool :=
  match snd c with
  | count | findUnique => false
  | create | update | delete | deleteMany => true
  end.

Record Event := mkEvent { call : Call; before : Db }.

Record World := mkWorld { db : Db; trace : list Event }.

(** ** Exceptions and promises *)

Inductive Exn :=
  | Error (message : string)
      (* [throw new Error(message)] *)
  | TypeError (property : string)
      (* reading [property] of [null] *)
  | PrismaClientKnownRequestError (code : string).
      (* raised by the client; P2025: a record the operation needs is missing *)

Inductive Result (A : Type) :=
  | Ok (a : A)
  | Throw (e : Exn).
Arguments Ok {A} _.
Arguments Throw {A} _.

Definition Promise (A : Type) : Type := World -> Result A * World.

Definition resolve {A} (a : A) : Promise A := fun w => (Ok a, w).

Definition throw {A} (e : Exn) : Promise A := fun w => (Throw e, w).

Definition await {A B} (m : Promise A) (k : A -> Promise B) : Promise B :=
  fun w =>
    match m w with
    | (Ok a, w') => k a w'
    | (Throw e, w') => (Throw e, w')
    end.

Notation "x <- m ;; k" := (await m (fun x => k))
  (at level 100, m at next level, right associativity).
Notation "m ;;; k" := (await m (fun _ => k))
  (at level 100, right associativity).

Definition logged (c : Call) (w : World) : World :=
  mkWorld (db w) (trace w ++ [mkEvent c (db w)]).

(** A query: recorded, the store untouched. *)
Definition read {A} (c : Call) (q : Db -> A) : Promise A :=
  fun w => (Ok (q (db w)), logged c w).

(** A write, nested writes included, runs in one transaction: it replaces the
    store when it succeeds and leaves it when it throws. *)
Definition write {A} (c : Call) (body : Db -> Result (Db * A)) : Promise A :=
  fun w =>
    match body (db w) with
    | Ok (d, a) => (Ok a, mkWorld d (trace (logged c w)))
    | Throw e => (Throw e, logged c w)
    end.

(** [run m d]: the promise [m] started on the store [d]. *)
Definition run {A} (m : Promise A) (d : Db) : Result A * World :=
  m (mkWorld d []).

Definition calls {A} (r : Result A * World) : list Call :=
  map call (trace (snd r)).

Definition store {A} (r : Result A * World) : Db := db (snd r).

(** ** The client *)

Definition P2025 : Exn := PrismaClientKnownRequestError "P2025"%string.

(** P2020: a value is out of range for the type of its column. *)
Definition P2020 : Exn := PrismaClientKnownRequestError "P2020"%string.

Module Prisma.
(** A model of the client: where its table sits in the store. *)
Record Model (R : Type) := mk {
  name : ModelName;
  get : Db -> Table.t R;
  set : Table.t R -> Db -> Db
}.
Arguments name {R} _.
Arguments get {R} _.
Arguments set {R} _.

Section Client.
Context {R : Type} (m : Model R).

Definition count (p : R -> bool) : Promise nat :=
  read (name m, count) (fun d => Table.count p (get m d)).

Definition findUnique (p : R -> bool) : Promise (option R) :=
  read (name m, findUnique) (fun d => Table.findUnique p (get m d)).

(** [data] may refer to rows of other tables ([connect]); it throws when
    they are missing. *)
Definition create (data : Db -> Result (Z -> R)) : Promise R :=
  write (name m, create) (fun d =>
    match data d with
    | Ok mkrow =>
        let (tb, r) := Table.create mkrow (get m d) in Ok (set m tb d, r)
    | Throw e => Throw e
    end).

Definition update (p : R -> bool) (data : Db -> Result (R -> R)) : Promise R :=
  write (name m, update) (fun d =>
    match data d with
    | Ok f =>
        match Table.update p f (get m d) with
        | Some (tb, r) => Ok (set m tb d, r)
        | None => Throw P2025
        end
    | Throw e => Throw e
    end).

Definition delete (p : R -> bool) : Promise R :=
  write (name m, delete) (fun d =>
    match Table.delete p (get m d) with
    | Some (tb, r) => Ok (set m tb d, r)
    | None => Throw P2025
    end).

Definition deleteMany (p : R -> bool) : Promise nat :=
  write (name m, deleteMany) (fun d =>
    let (tb, n) := Table.deleteMany p (get m d) in Ok (set m tb d, n)).
End Client.

Definition collectionAuthor := mk _ collectionAuthor_ collectionAuthor set_collectionAuthor.
Definition collection := mk _ collection_ collection set_collection.
Definition collectionStory := mk _ collectionStory_ collectionStory set_collectionStory.
Definition collectionStoryAuthor :=
  mk _ collectionStoryAuthor_ collectionStoryAuthor set_collectionStoryAuthor.
Definition image := mk _ image_ image set_image.
End Prisma.

(** ** Inputs of the mutations

    The input types are declared in [./types], which is not part of the
    sources at hand; the fields below are the ones the mutations and their
    integration tests read and write. An optional field ([field?: T]) is an
    [option]. *)

Module CreateCollectionAuthorInput.
Record t := mk {
  name : string;
  slug : option string;
  bio : option string;
  imageUrl : option string
}.
End CreateCollectionAuthorInput.

Module UpdateCollectionAuthorInput.
(** [externalId] is declared a string and is guarded against being absent
    or empty by [updateAuthor]: it is optional here. *)
Record t := mk {
  externalId : option string;
  name : string;
  slug : string;
  bio : Optional string;
  imageUrl : Optional string
}.
End UpdateCollectionAuthorInput.

Module CreateCollectionInput.
(** The input is spread whole into the row to create: it carries the columns
    it sets, [status] and [publishedAt] among them, as the input of the update
    does. On creation an absent and a [null] [publishedAt] both leave the
    column empty. *)
Record t := mk {
  slug : string;
  title : string;
  status : option CollectionStatus;
  publishedAt : option Date;
  authorExternalId : string
}.
End CreateCollectionInput.

Module UpdateCollectionInput.
(** [publishedAt] is a field of the input: [updateCollection] assigns it,
    and the tests pass a whole [Collection] row, spread, as input. *)
Record t := mk {
  externalId : string;
  slug : string;
  title : string;
  status : option CollectionStatus;
  publishedAt : Optional Date;
  authorExternalId : string
}.
End UpdateCollectionInput.

Module CollectionStoryAuthorInput.
(** [sortOrder] is a number of the input; the column it is written to is a
    32-bit integer (see [storable]). *)
Record t := mk { name : string; sortOrder : Z }.
End CollectionStoryAuthorInput.

Module CreateCollectionStoryInput.
Record t := mk {
  collectionExternalId : string;
  url : string;
  title : string;
  excerpt : string;
  imageUrl : option string;
  authors : list CollectionStoryAuthorInput.t;
  publisher : option string
}.
End CreateCollectionStoryInput.

Module UpdateCollectionStoryInput.
Record t := mk {
  externalId : string;
  url : string;
  title : string;
  excerpt : string;
  imageUrl : Optional string;
  authors : list CollectionStoryAuthorInput.t;
  publisher : Optional string
}.
End UpdateCollectionStoryInput.

(** The bound of [associateImageWithEntity]'s type parameter:
    [T extends { id: number; imageUrl: string }]. *)
Module Entity.
Record t := mk { id : Z; imageUrl : option string }.
End Entity.

Definition CollectionStoryWithAuthors : Type :=
  CollectionStory.t * list CollectionStoryAuthor.t.

(** What the client does, on update, with a field of [data] whose column may
    hold [null]: [undefined] leaves the column as it is, [null] clears it, a
    value overwrites it. *)
Definition assignNullable {A : Type} (field : Optional A) (old : option A) : option A :=
  match field with
  | undefined => old
  | null => None
  | value v => Some v
  end.

(** Reading [property] of a value that may be [null]: the runtime throws a
    [TypeError] on [null]. *)
Definition deref {A} (property : string) (o : option A) : Promise A :=
  match o with
  | Some a => resolve a
  | None => throw (TypeError property)
  end.

(** [connect: { externalId }] on the authors relation: the id of the author
    to connect, or P2025 when there is no such author. *)
Definition connect (authorExternalId : string) (d : Db) : Result Z :=
  match Table.findUnique
          (fun a => String.eqb (CollectionAuthor.externalId a) authorExternalId)
          (collectionAuthor d) with
  | Some a => Ok (CollectionAuthor.id a)
  | None => Throw P2025
  end.

(** [authors: { create: data.authors }] on a story: one join row per author
    of the input, in order. *)
Fixpoint createStoryAuthors (storyId : Z) (l : list CollectionStoryAuthorInput.t)
    (tb : Table.t CollectionStoryAuthor.t)
  : Table.t CollectionStoryAuthor.t * list CollectionStoryAuthor.t :=
  match l with
  | [] => (tb, [])
  | a :: l' =>
      let (tb1, r) :=
        Table.create
          (fun id => CollectionStoryAuthor.mk id storyId
                       (CollectionStoryAuthorInput.name a)
                       (CollectionStoryAuthorInput.sortOrder a)) tb in
      let (tb2, rs) := createStoryAuthors storyId l' tb1 in
      (tb2, r :: rs)
  end.

(** The author rows of a story are written to a 32-bit [sortOrder] column: the
    nested write is refused (P2020, value out of range) when a [sortOrder] of
    the input does not fit. *)
Definition storable (l : list CollectionStoryAuthorInput.t) : bool :=
  forallb (fun a => int32 (CollectionStoryAuthorInput.sortOrder a)) l.

(** [orderBy]: the rows in ascending order of [le], by insertion; rows that
    [le] does not tell apart stay in the order of the table. *)
Fixpoint insertBy {R} (le : R -> R -> bool) (x : R) (l : list R) : list R :=
  match l with
  | [] => [x]
  | y :: l' => if le x y then x :: y :: l' else y :: insertBy le x l'
  end.

Definition orderBy {R} (le : R -> R -> bool) (l : list R) : list R :=
  fold_right (insertBy le) [] l.

(** Modelled from the spec: the column defaults of [Collection] are set by the
    relational schema, which is not part of the sources at hand. "Creating a
    collection defaults its status to draft and publishedAt to empty." *)
Definition Collection_status_default : CollectionStatus := draft.
Definition Collection_publishedAt_default : option Date := None.

(** Modelled from the spec: [getCollection] of [./queries], not part of the
    sources at hand, "looks up by unique external identifier"; the mutations
    test its result against [null]. The relations it includes are not read by
    the mutations. *)
Definition getCollection (externalId : string) : Promise (option Collection.t) :=
  Prisma.findUnique Prisma.collection
    (fun c => String.eqb (Collection.externalId c) externalId).

(** Modelled from the spec: [getCollectionStory] of [./queries], not part of
    the sources at hand: the story with that external identifier, with its
    author join rows, or [null] (its test expects a falsy result for an unknown
    identifier). *)
Definition getCollectionStory (externalId : string)
  : Promise (option CollectionStoryWithAuthors) :=
  read (collectionStory_, findUnique) (fun d =>
    match Table.findUnique
            (fun s => String.eqb (CollectionStory.externalId s) externalId)
            (collectionStory d) with
    | Some s =>
        Some (s, filter (fun a => CollectionStoryAuthor.collectionStoryId a
                                  =? CollectionStory.id s)
                        (Table.rows (collectionStoryAuthor d)))
    | None => None
    end).

(** ** The mutations *)

Definition author_slug_exists (slug : string) : string :=
  ("An author with the slug " ++ dquote ++ slug ++ dquote ++ " already exists")%string.

Definition collection_slug_exists (slug : string) : string :=
  ("A collection with the slug " ++ slug ++ " already exists")%string.

Section Mutations.

(** [slugify(_, config.slugify)]: the third-party normaliser, with the
    options of the configuration. *)
Variable slugify : string -> string.

(** The ascending order of names in the store ([orderBy: [{ name: 'asc' }]]):
    the collation of the column, which the relational schema sets. *)
Variable name_asc : string -> string -> bool.

Definition byName (a b : CollectionStoryAuthor.t) : bool :=
  name_asc (CollectionStoryAuthor.name a) (CollectionStoryAuthor.name b).

(** [uuid] stands for the external identifier the store generates for the
    new row. *)
Definition createAuthor (uuid : string) (data : CreateCollectionAuthorInput.t)
  : Promise CollectionAuthor.t :=
  let slug := or_else (CreateCollectionAuthorInput.slug data)
                      (slugify (CreateCollectionAuthorInput.name data)) in
  slugExists <- Prisma.count Prisma.collectionAuthor
                  (fun a => String.eqb (CollectionAuthor.slug a) slug) ;;
  if (0 <? slugExists)%nat then
    throw (Error (author_slug_exists slug))
  else
    Prisma.create Prisma.collectionAuthor (fun _ => Ok (fun id =>
      CollectionAuthor.mk id uuid
        (CreateCollectionAuthorInput.name data)
        slug
        (CreateCollectionAuthorInput.bio data)
        (CreateCollectionAuthorInput.imageUrl data))).

Definition updateAuthor (data : UpdateCollectionAuthorInput.t)
  : Promise CollectionAuthor.t :=
  match UpdateCollectionAuthorInput.externalId data with
  | None => throw (Error "externalId must be provided.")
  | Some externalId =>
      if String.eqb externalId EmptyString then
        throw (Error "externalId must be provided.")
      else
        slugExists <- Prisma.count Prisma.collectionAuthor
          (fun a => String.eqb (CollectionAuthor.slug a)
                               (UpdateCollectionAuthorInput.slug data)
                    && negb (String.eqb (CollectionAuthor.externalId a) externalId)) ;;
        if (0 <? slugExists)%nat then
          throw (Error (author_slug_exists (UpdateCollectionAuthorInput.slug data)))
        else
          Prisma.update Prisma.collectionAuthor
            (fun a => String.eqb (CollectionAuthor.externalId a) externalId)
            (fun _ => Ok (fun a =>
               CollectionAuthor.mk (CollectionAuthor.id a) externalId
                 (UpdateCollectionAuthorInput.name data)
                 (UpdateCollectionAuthorInput.slug data)
                 (assignNullable (UpdateCollectionAuthorInput.bio data)
                                 (CollectionAuthor.bio a))
                 (assignNullable (UpdateCollectionAuthorInput.imageUrl data)
                                 (CollectionAuthor.imageUrl a))))
  end.

Definition createCollection (uuid : string) (data : CreateCollectionInput.t)
  : Promise Collection.t :=
  slugExists <- Prisma.count Prisma.collection
    (fun c => String.eqb (Collection.slug c) (CreateCollectionInput.slug data)) ;;
  if (0 <? slugExists)%nat then
    throw (Error (collection_slug_exists (CreateCollectionInput.slug data)))
  else
    let authorExternalId := CreateCollectionInput.authorExternalId data in
    Prisma.create Prisma.collection (fun d =>
      match connect authorExternalId d with
      | Ok author =>
          Ok (fun id =>
            Collection.mk id uuid
              (CreateCollectionInput.slug data)
              (CreateCollectionInput.title data)
              (assign (CreateCollectionInput.status data) Collection_status_default)
              (match CreateCollectionInput.publishedAt data with
               | Some publishedAt => Some publishedAt
               | None => Collection_publishedAt_default
               end)
              [author])
      | Throw e => Throw e
      end).

(** [now] is the value of [new Date()]. *)
Definition updateCollection (now : Date) (data : UpdateCollectionInput.t)
  : Promise Collection.t :=
  existingCollection <- getCollection (UpdateCollectionInput.externalId data) ;;
  match existingCollection with
  | None => throw (Error "A collection by that ID could not be found")
  | Some existingCollection =>
      (if negb (String.eqb (Collection.slug existingCollection)
                           (UpdateCollectionInput.slug data)) then
         sameSlugs <- Prisma.count Prisma.collection
           (fun c => String.eqb (Collection.slug c) (UpdateCollectionInput.slug data)
                     && negb (existsb (String.eqb (Collection.externalId c))
                                      [Collection.externalId existingCollection])) ;;
         if (0 <? sameSlugs)%nat then
           throw (Error (collection_slug_exists (UpdateCollectionInput.slug data)))
         else resolve tt
       else resolve tt) ;;;
      let authorExternalId := UpdateCollectionInput.authorExternalId data in
      let publishedAt :=
        if negb (CollectionStatus_eqb (Collection.status existingCollection) published)
           && match UpdateCollectionInput.status data with
              | Some s => CollectionStatus_eqb s published
              | None => false
              end
        then value now
        else UpdateCollectionInput.publishedAt data in
      Prisma.update Prisma.collection
        (fun c => String.eqb (Collection.externalId c)
                             (UpdateCollectionInput.externalId data))
        (fun d =>
           match connect authorExternalId d with
           | Ok author =>
               Ok (fun c =>
                 Collection.mk (Collection.id c)
                   (UpdateCollectionInput.externalId data)
                   (UpdateCollectionInput.slug data)
                   (UpdateCollectionInput.title data)
                   (assign (UpdateCollectionInput.status data) (Collection.status c))
                   (assignNullable publishedAt (Collection.publishedAt c))
                   [author])
           | Throw e => Throw e
           end)
  end.

(** [collection.id] is read of the result of [getCollection] as it is. The
    story and its author rows are one nested write; the authors included in
    the result are ordered by name. *)
Definition createCollectionStory (uuid : string) (data : CreateCollectionStoryInput.t)
  : Promise CollectionStoryWithAuthors :=
  collection <- getCollection (CreateCollectionStoryInput.collectionExternalId data) ;;
  collection <- deref "id" collection ;;
  write (collectionStory_, create) (fun d =>
    if storable (CreateCollectionStoryInput.authors data) then
      let (stories, story) :=
        Table.create
          (fun id =>
             CollectionStory.mk id uuid (Collection.id collection)
               (CreateCollectionStoryInput.url data)
               (CreateCollectionStoryInput.title data)
               (CreateCollectionStoryInput.excerpt data)
               (CreateCollectionStoryInput.imageUrl data)
               (CreateCollectionStoryInput.publisher data))
          (collectionStory d) in
      let (joins, authors) :=
        createStoryAuthors (CollectionStory.id story)
          (CreateCollectionStoryInput.authors data) (collectionStoryAuthor d) in
      Ok (set_collectionStoryAuthor joins (set_collectionStory stories d),
          (story, orderBy byName authors))
    else Throw P2020).

(** [existingStory.id] is read of the result of [getCollectionStory] as it
    is. The removal of the author rows is a call of its own, committed before
    the update is issued; the update and the new author rows are one nested
    write; the authors included in the result are ordered by name. *)
Definition updateCollectionStory (data : UpdateCollectionStoryInput.t)
  : Promise CollectionStoryWithAuthors :=
  existingStory <- getCollectionStory (UpdateCollectionStoryInput.externalId data) ;;
  existingStory <- deref "id" existingStory ;;
  Prisma.deleteMany Prisma.collectionStoryAuthor
    (fun a => CollectionStoryAuthor.collectionStoryId a
              =? CollectionStory.id (fst existingStory)) ;;;
  write (collectionStory_, update) (fun d =>
    match Table.update
            (fun s => String.eqb (CollectionStory.externalId s)
                                 (UpdateCollectionStoryInput.externalId data))
            (fun s =>
               CollectionStory.mk (CollectionStory.id s)
                 (UpdateCollectionStoryInput.externalId data)
                 (CollectionStory.collectionId s)
                 (UpdateCollectionStoryInput.url data)
                 (UpdateCollectionStoryInput.title data)
                 (UpdateCollectionStoryInput.excerpt data)
                 (assignNullable (UpdateCollectionStoryInput.imageUrl data)
                                 (CollectionStory.imageUrl s))
                 (assignNullable (UpdateCollectionStoryInput.publisher data)
                                 (CollectionStory.publisher s)))
            (collectionStory d) with
    | Some (stories, story) =>
        if storable (UpdateCollectionStoryInput.authors data) then
          let (joins, authors) :=
            createStoryAuthors (CollectionStory.id story)
              (UpdateCollectionStoryInput.authors data) (collectionStoryAuthor d) in
          Ok (set_collectionStoryAuthor joins (set_collectionStory stories d),
              (story, orderBy byName authors))
        else Throw P2020
    | None => Throw P2025
    end).

Definition deleteCollectionStory (externalId : string)
  : Promise CollectionStoryWithAuthors :=
  existingStory <- getCollectionStory externalId ;;
  existingStory <- deref "id" existingStory ;;
  Prisma.deleteMany Prisma.collectionStoryAuthor
    (fun a => CollectionStoryAuthor.collectionStoryId a
              =? CollectionStory.id (fst existingStory)) ;;;
  Prisma.delete Prisma.collectionStory
    (fun s => String.eqb (CollectionStory.externalId s) externalId) ;;;
  resolve existingStory.

(** [Promise<Image | void>]: [None] is the return without a value.
    [!entity.imageUrl] holds of an absent and of an empty [imageUrl]. *)
Definition associateImageWithEntity (entity : Entity.t) (entityType : ImageEntityType)
  : Promise (option Image.t) :=
  match Entity.imageUrl entity with
  | None => resolve None
  | Some imageUrl =>
      if String.eqb imageUrl EmptyString then resolve None
      else
        image <- Prisma.findUnique Prisma.image
          (fun i => String.eqb (Image.path i) imageUrl) ;;
        match image with
        | Some image =>
            updated <- Prisma.update Prisma.image
              (fun i => Image.id i =? Image.id image)
              (fun _ => Ok (fun i =>
                 Image.mk (Image.id i) (Image.path i)
                   (Some (Entity.id entity)) (Some entityType))) ;;
            resolve (Some updated)
        | None => resolve None
        end
  end.

End Mutations.

(** A normaliser to run the examples with: ASCII letters to lower case, a
    space to a hyphen. It agrees with the third-party one on the names used in
    the integration tests ("the dude" gives "the-dude"). *)
Definition lower_hyphen (c : ascii) : ascii :=
  let n := nat_of_ascii c in
  if (n =? 32)%nat then ascii_of_nat 45
  else if ((65 <=? n) && (n <=? 90))%nat then ascii_of_nat (n + 32)
  else c.

Fixpoint slugify_ascii (s : string) : string :=
  match s with
  | EmptyString => EmptyString
  | String c s' => String (lower_hyphen c) (slugify_ascii s')
  end.

(** ** Stores of the examples *)

Definition the_dude : CollectionAuthor.t :=
  CollectionAuthor.mk 1 "a-1" "the dude" "the-dude" None None.

Definition walter : CollectionAuthor.t :=
  CollectionAuthor.mk 2 "a-2" "walter" "walter" None None.

Definition bowling : Collection.t :=
  Collection.mk 1 "c-1" "let-us-go-bowling" "let us go bowling" draft None [1].

Definition ringing : Collection.t :=
  Collection.mk 2 "c-2" "phone-is-ringing" "phone is ringing" published (Some 5) [2].

Definition a_story : CollectionStory.t :=
  CollectionStory.mk 1 "s-1" 1 "https://getpocket.com" "a story"
    "this is a story, all about how..." (Some "https://some.image"%string)
    (Some "the verge"%string).

Definition donny : CollectionStoryAuthor.t :=
  CollectionStoryAuthor.mk 1 1 "donny" 0.

Definition some_image : Image.t :=
  Image.mk 1 "https://some.image" None None.

Definition other_image : Image.t :=
  Image.mk 2 "https://other.image" None None.

Definition sampleDb : Db :=
  mkDb (Table.mk [the_dude; walter] 3)
       (Table.mk [bowling; ringing] 3)
       (Table.mk [a_story] 2)
       (Table.mk [donny] 2)
       (Table.mk [some_image; other_image] 3).

(** * Properties *)

(** ** Lists and tables *)

Lemma filter_nonempty {R} (p : R -> bool) (l : list R) :
  (0 <? List.length (filter p l))%nat = true <-> exists r, In r l /\ p r = true.
Proof.
  split.
  - destruct (filter p l) as [|r l'] eqn:E; simpl; [discriminate|].
    intros _. exists r. apply filter_In. rewrite E. now left.
  - intros [r Hr]. apply filter_In in Hr.
    destruct (filter p l); [contradiction | reflexivity].
Qed.

Lemma filter_none {R} (p : R -> bool) (l : list R) :
  (0 <? List.length (filter p l))%nat = false <-> forall r, In r l -> p r = false.
Proof.
  split.
  - intros H r Hin. destruct (p r) eqn:E; [|reflexivity].
    assert (X : (0 <? List.length (filter p l))%nat = true)
      by (apply filter_nonempty; eauto).
    congruence.
  - intros H. destruct (0 <? List.length (filter p l))%nat eqn:E; [|reflexivity].
    apply filter_nonempty in E. destruct E as [r [Hin Hp]].
    rewrite (H r Hin) in Hp. discriminate.
Qed.

Lemma find_replaceFirst {R} (p : R -> bool) (f : R -> R) (l : list R) (r : R) :
  find p l = Some r -> p (f r) = true -> find p (Table.replaceFirst p f l) = Some (f r).
Proof.
  induction l as [|x l IH]; simpl; [discriminate|].
  destruct (p x) eqn:E; intros H Hf.
  - injection H as ->. simpl. now rewrite Hf.
  - simpl. rewrite E. auto.
Qed.

Lemma replaceFirst_In {R} (p : R -> bool) (f : R -> R) (l : list R) (x : R) :
  In x (Table.replaceFirst p f l) ->
  In x l \/ exists r, find p l = Some r /\ x = f r.
Proof.
  induction l as [|y l IH]; simpl; [tauto|].
  destruct (p y) eqn:E; simpl.
  - intros [<-|H]; eauto.
  - intros [<-|H]; [now left; left|].
    destruct (IH H) as [H'|H']; tauto.
Qed.

(** ** Running a promise *)

Ltac run_unfold :=
  unfold run, store, calls, await, resolve, throw, deref,
    Prisma.count, Prisma.findUnique, Prisma.create, Prisma.update,
    Prisma.delete, Prisma.deleteMany, getCollection, getCollectionStory,
    read, write, logged in *;
  simpl in *.

Lemma connect_found (e : string) (d : Db) :
  (exists a, In a (Table.rows (collectionAuthor d)) /\ CollectionAuthor.externalId a = e) ->
  exists a, In a (Table.rows (collectionAuthor d))
            /\ CollectionAuthor.externalId a = e
            /\ connect e d = Ok (CollectionAuthor.id a).
Proof.
  intros [a [Hin He]]. unfold connect, Table.findUnique.
  destruct (find _ _) as [b|] eqn:E.
  - apply find_some in E. destruct E as [Hb Eb]. apply String.eqb_eq in Eb. eauto.
  - apply find_none with (x := a) in E; [|assumption].
    apply String.eqb_neq in E. contradiction.
Qed.

(** ** Authors *)

(** C8. [updateAuthor] called with an input whose [externalId] is absent or
    empty throws [Error('externalId must be provided.')]; no call reaches the
    client (no lookup, no write) and the store is as before. *)
Theorem updateAuthor_externalId_required
    (data : UpdateCollectionAuthorInput.t) (d : Db) :
  UpdateCollectionAuthorInput.externalId data = None
  \/ UpdateCollectionAuthorInput.externalId data = Some EmptyString ->
  let r := run (updateAuthor data) d in
  fst r = Throw (Error "externalId must be provided.")
  /\ calls r = []
  /\ store r = d.
Proof.
  unfold updateAuthor. intros [->| ->]; now run_unfold.
Qed.

Lemma updateAuthor_externalId_required_witness :
  let data := UpdateCollectionAuthorInput.mk (Some EmptyString) "el duderino" "el-duderino" undefined undefined in
  fst (run (updateAuthor data) sampleDb) = Throw (Error "externalId must be provided.")
  /\ calls (run (updateAuthor data) sampleDb) = []
  /\ store (run (updateAuthor data) sampleDb) = sampleDb.
Proof.
  apply (updateAuthor_externalId_required
           (UpdateCollectionAuthorInput.mk (Some EmptyString) "el duderino" "el-duderino" undefined undefined)
           sampleDb).
  right. reflexivity.
Defined.

(** C5. When the input of [createAuthor] has no slug, or an empty one, the
    author is created with the slug [slugify(name)]; when a slug is supplied
    the author is created with that slug. In both cases, [s] being that slug
    and no author of the store having it yet, the call returns the new row,
    which is the one row added to the table. *)
Theorem createAuthor_slug (slugify : string -> string) (uuid : string)
    (data : CreateCollectionAuthorInput.t) (d : Db) (s : string) :
  ((CreateCollectionAuthorInput.slug data = None
    \/ CreateCollectionAuthorInput.slug data = Some EmptyString)
   /\ s = slugify (CreateCollectionAuthorInput.name data))
  \/ (CreateCollectionAuthorInput.slug data = Some s /\ s <> EmptyString) ->
  (forall a, In a (Table.rows (collectionAuthor d)) -> CollectionAuthor.slug a <> s) ->
  let r := run (createAuthor slugify uuid data) d in
  exists a,
    fst r = Ok a
    /\ CollectionAuthor.slug a = s
    /\ CollectionAuthor.name a = CreateCollectionAuthorInput.name data
    /\ Table.rows (collectionAuthor (store r)) = Table.rows (collectionAuthor d) ++ [a].
Proof.
  intros Hs Hfresh.
  assert (Es : or_else (CreateCollectionAuthorInput.slug data)
                 (slugify (CreateCollectionAuthorInput.name data)) = s).
  { unfold or_else.
    destruct Hs as [[[-> | ->] ->]|[-> Hne]]; try reflexivity.
    apply String.eqb_neq in Hne. now rewrite Hne. }
  unfold createAuthor. rewrite Es. run_unfold. unfold Table.count.
  assert (E : (0 <? List.length
                 (filter (fun a => String.eqb (CollectionAuthor.slug a) s)
                    (Table.rows (collectionAuthor d))))%nat = false).
  { apply filter_none. intros a Ha. apply String.eqb_neq. auto. }
  rewrite E. simpl. eexists. repeat split; reflexivity.
Qed.

Lemma createAuthor_slug_witness :
  let data := CreateCollectionAuthorInput.mk "Donny K" None None None in
  let r := run (createAuthor slugify_ascii "a-3" data) sampleDb in
  exists a,
    fst r = Ok a
    /\ CollectionAuthor.slug a = "donny-k"%string
    /\ CollectionAuthor.name a = "Donny K"%string
    /\ Table.rows (collectionAuthor (store r)) = [the_dude; walter] ++ [a].
Proof.
  apply (createAuthor_slug slugify_ascii "a-3"
           (CreateCollectionAuthorInput.mk "Donny K" None None None) sampleDb "donny-k").
  - left. split; [left|]; reflexivity.
  - intros a [<-|[<-|[]]]; discriminate.
Defined.

(** The integration test of the default slug: "the dude" on an empty store. *)
Example createAuthor_default_slug_test :
  option_map CollectionAuthor.slug
    (match fst (run (createAuthor slugify_ascii "a-1"
                       (CreateCollectionAuthorInput.mk "the dude" None None None)) emptyDb) with
     | Ok a => Some a
     | Throw _ => None
     end) = Some "the-dude"%string.
Proof. reflexivity. Qed.

(** ** Errors and the store *)

(** A promise fails cleanly on [d] when a throw leaves the store as it was,
    and a thrown [Error] (a validation of the mutation itself, not a failure
    inside the client) comes before any write was issued. *)
Definition fails_cleanly {A} (m : Promise A) (d : Db) : Prop :=
  forall e, fst (run m d) = Throw e ->
    store (run m d) = d
    /\ (forall message, e = Error message ->
          existsb is_write (calls (run m d)) = false).

Ltac break_match :=
  repeat match goal with
    | H : (_, _) = (_, _) |- _ => inversion H; subst; clear H; simpl in *
    | H : Ok _ = Ok _ |- _ => inversion H; subst; clear H; simpl in *
    | H : Some _ = Some _ |- _ => inversion H; subst; clear H; simpl in *
    | |- context [match ?x with _ => _ end] => destruct x eqn:?; simpl in *
    | H : context [match ?x with _ => _ end] |- _ => destruct x eqn:?; simpl in *
    end.

Ltac clean_failure :=
  intros e; run_unfold;
  unfold connect, P2025, Table.create, Table.update, Table.delete, Table.deleteMany;
  break_match; intros He; simpl in *;
  try discriminate;
  inversion He; subst;
  (split; [reflexivity | intros message Hm; try reflexivity; congruence]).

Lemma createAuthor_fails_cleanly slugify uuid data d :
  fails_cleanly (createAuthor slugify uuid data) d.
Proof. unfold fails_cleanly, createAuthor. clean_failure. Qed.

Lemma updateAuthor_fails_cleanly data d :
  fails_cleanly (updateAuthor data) d.
Proof.
  unfold fails_cleanly, updateAuthor. clean_failure.
Qed.

Lemma createCollection_fails_cleanly uuid data d :
  fails_cleanly (createCollection uuid data) d.
Proof.
  unfold fails_cleanly, createCollection. clean_failure.
Qed.

Lemma updateCollection_fails_cleanly now data d :
  fails_cleanly (updateCollection now data) d.
Proof.
  unfold fails_cleanly, updateCollection. clean_failure.
Qed.

(** C9. In [createAuthor], [updateAuthor], [createCollection] and
    [updateCollection] every throw leaves the store unchanged, and the errors
    the mutations raise themselves (duplicate slug, missing [externalId],
    collection not found) are raised before any write is issued: on the error
    path no record has been created, updated or deleted. *)
Theorem mutations_fail_cleanly (slugify : string -> string) (uuid : string) (now : Date)
    (ca : CreateCollectionAuthorInput.t) (ua : UpdateCollectionAuthorInput.t)
    (cc : CreateCollectionInput.t) (uc : UpdateCollectionInput.t) (d : Db) :
  fails_cleanly (createAuthor slugify uuid ca) d
  /\ fails_cleanly (updateAuthor ua) d
  /\ fails_cleanly (createCollection uuid cc) d
  /\ fails_cleanly (updateCollection now uc) d.
Proof.
  split; [|split; [|split]].
  - apply createAuthor_fails_cleanly.
  - apply updateAuthor_fails_cleanly.
  - apply createCollection_fails_cleanly.
  - apply updateCollection_fails_cleanly.
Qed.

(** The four error paths on the store of the examples: each throws, and the
    store is the same afterwards. *)
Example error_paths_sample :
  let r1 := run (createAuthor slugify_ascii "a-3"
                   (CreateCollectionAuthorInput.mk "The Dude" None None None)) sampleDb in
  let r2 := run (updateAuthor
                   (UpdateCollectionAuthorInput.mk (Some "a-2"%string) "walter" "the-dude"
                      undefined undefined)) sampleDb in
  let r3 := run (createCollection "c-3"
                   (CreateCollectionInput.mk "phone-is-ringing" "again" None None "a-1")) sampleDb in
  let r4 := run (updateCollection 7
                   (UpdateCollectionInput.mk "c-9" "nine" "nine" None undefined "a-1")) sampleDb in
  (fst r1, store r1) = (Throw (Error (author_slug_exists "the-dude")), sampleDb)
  /\ (fst r2, store r2) = (Throw (Error (author_slug_exists "the-dude")), sampleDb)
  /\ (fst r3, store r3) = (Throw (Error (collection_slug_exists "phone-is-ringing")), sampleDb)
  /\ (fst r4, store r4) = (Throw (Error "A collection by that ID could not be found"), sampleDb).
Proof. repeat split. Qed.

(** ** Slugs of authors *)

Definition author_slugs (d : Db) : list string :=
  map CollectionAuthor.slug (Table.rows (collectionAuthor d)).

Definition author_externalIds (d : Db) : list string :=
  map CollectionAuthor.externalId (Table.rows (collectionAuthor d)).

Lemma NoDup_snoc {A} (l : list A) (x : A) :
  NoDup l -> ~ In x l -> NoDup (l ++ [x]).
Proof.
  intros Hl Hx. apply NoDup_app; [assumption | repeat constructor; simpl; tauto |].
  intros y Hy [<-|[]]. contradiction.
Qed.

(** Rewriting the slug of the one row that has the external identifier [e]
    keeps the slugs distinct when no other row has the new slug. *)
Lemma replaceFirst_slug_NoDup (e s : string) (f : CollectionAuthor.t -> CollectionAuthor.t)
    (l : list CollectionAuthor.t) :
  (forall a, CollectionAuthor.slug (f a) = s) ->
  NoDup (map CollectionAuthor.slug l) ->
  NoDup (map CollectionAuthor.externalId l) ->
  (forall a, In a l -> CollectionAuthor.externalId a <> e -> CollectionAuthor.slug a <> s) ->
  NoDup (map CollectionAuthor.slug
           (Table.replaceFirst
              (fun a => String.eqb (CollectionAuthor.externalId a) e) f l)).
Proof.
  intros Hf. induction l as [|x l IH]; simpl; intros Hs He Hother; [constructor|].
  inversion Hs as [|? ? Hx Hs']; subst. inversion He as [|? ? Hxe He']; subst.
  destruct (String.eqb (CollectionAuthor.externalId x) e) eqn:E; simpl.
  - apply String.eqb_eq in E. constructor; [|assumption].
    rewrite Hf. intros Hin. apply in_map_iff in Hin. destruct Hin as [a [Ha Hin]].
    apply (Hother a); [now right | | assumption].
    intros Hae. apply Hxe. apply in_map_iff. exists a. split; [congruence | assumption].
  - apply String.eqb_neq in E. constructor.
    + intros Hin. apply in_map_iff in Hin. destruct Hin as [a [Ha Hin]].
      apply replaceFirst_In in Hin. destruct Hin as [Hin|[r [_ ->]]].
      * apply Hx. apply in_map_iff. eauto.
      * rewrite Hf in Ha. apply (Hother x); [now left | assumption | congruence].
    + apply IH; auto.
Qed.

Lemma replaceFirst_externalId (e : string) (f : CollectionAuthor.t -> CollectionAuthor.t)
    (l : list CollectionAuthor.t) :
  (forall a, CollectionAuthor.externalId (f a) = e) ->
  map CollectionAuthor.externalId
      (Table.replaceFirst (fun a => String.eqb (CollectionAuthor.externalId a) e) f l)
  = map CollectionAuthor.externalId l.
Proof.
  intros Hf. induction l as [|x l IH]; simpl; [reflexivity|].
  destruct (String.eqb (CollectionAuthor.externalId x) e) eqn:E; simpl.
  - apply String.eqb_eq in E. now rewrite Hf, E.
  - now rewrite IH.
Qed.

(** C4. [createAuthor] throws [An author with the slug "<slug>" already
    exists] when an author with the resulting slug exists, [updateAuthor]
    throws the same when the input slug is used by an author with a different
    [externalId], and so a table of authors with distinct slugs still has
    distinct slugs after [createAuthor] and after [updateAuthor] (the external
    identifiers being distinct, which the store guarantees: [updateAuthor]
    addresses a row by its external identifier). *)
Theorem author_slugs_stay_unique (slugify : string -> string) (uuid : string)
    (ca : CreateCollectionAuthorInput.t) (ua : UpdateCollectionAuthorInput.t) (d : Db) :
  let s := or_else (CreateCollectionAuthorInput.slug ca)
                   (slugify (CreateCollectionAuthorInput.name ca)) in
  let r1 := run (createAuthor slugify uuid ca) d in
  let r2 := run (updateAuthor ua) d in
  ((exists a, In a (Table.rows (collectionAuthor d)) /\ CollectionAuthor.slug a = s) ->
   fst r1 = Throw (Error ("An author with the slug " ++ dquote ++ s ++ dquote
                          ++ " already exists")))
  /\ (forall e, UpdateCollectionAuthorInput.externalId ua = Some e -> e <> EmptyString ->
      (exists a, In a (Table.rows (collectionAuthor d))
                 /\ CollectionAuthor.slug a = UpdateCollectionAuthorInput.slug ua
                 /\ CollectionAuthor.externalId a <> e) ->
      fst r2 = Throw (Error ("An author with the slug " ++ dquote
                             ++ UpdateCollectionAuthorInput.slug ua ++ dquote
                             ++ " already exists")))
  /\ (NoDup (author_slugs d) -> NoDup (author_slugs (store r1)))
  /\ (NoDup (author_slugs d) -> NoDup (author_externalIds d) ->
      NoDup (author_slugs (store r2))).
Proof.
  intros s r1 r2. subst r1 r2. unfold author_slugs, author_externalIds in *.
  split; [|split; [|split]].
  - intros [a [Hin Ha]]. unfold createAuthor. fold s. run_unfold. unfold Table.count.
    assert (E : (0 <? List.length
                   (filter (fun a => String.eqb (CollectionAuthor.slug a) s)
                      (Table.rows (collectionAuthor d))))%nat = true).
    { apply filter_nonempty. exists a. split; [assumption|]. now apply String.eqb_eq. }
    rewrite E. reflexivity.
  - intros e Hu Hne [a [Hin [Ha Hae]]]. unfold updateAuthor. rewrite Hu.
    apply String.eqb_neq in Hne. rewrite Hne. run_unfold. unfold Table.count.
    match goal with |- context [(0 <? ?n)%nat] =>
      assert (E : (0 <? n)%nat = true) end.
    { apply filter_nonempty. exists a. split; [assumption|].
      apply andb_true_intro. split; [now apply String.eqb_eq|].
      apply negb_true_iff. now apply String.eqb_neq. }
    rewrite E. reflexivity.
  - intros Hs. unfold createAuthor. fold s. run_unfold. unfold Table.count.
    destruct (0 <? _)%nat eqn:E; simpl; [assumption|].
    rewrite map_app. simpl. apply NoDup_snoc; [assumption|].
    intros Hin. apply in_map_iff in Hin. destruct Hin as [a [Ha Hin]].
    rewrite filter_none in E. specialize (E a Hin). apply String.eqb_neq in E. contradiction.
  - intros Hs He. unfold updateAuthor.
    destruct (UpdateCollectionAuthorInput.externalId ua) as [e|]; [|assumption].
    destruct (String.eqb e EmptyString); [assumption|].
    run_unfold. unfold Table.count, Table.update.
    destruct (0 <? _)%nat eqn:E; simpl; [assumption|].
    destruct (find _ _) as [a|]; simpl; [|assumption].
    apply replaceFirst_slug_NoDup
      with (s := UpdateCollectionAuthorInput.slug ua); try assumption; [reflexivity|].
    intros b Hb Hbe. rewrite filter_none in E. specialize (E b Hb).
    apply andb_false_iff in E. destruct E as [E|E].
    + now apply String.eqb_neq.
    + apply negb_false_iff, String.eqb_eq in E. contradiction.
Qed.

(** On the store of the examples: a second "The Dude" and a walter who takes
    the slug of the dude are refused; "Donny" is created and walter may call
    himself "his-dudeness", and the slugs are distinct afterwards. *)
Lemma author_slugs_stay_unique_witness :
  let dup := CreateCollectionAuthorInput.mk "The Dude" None None None in
  let taken := UpdateCollectionAuthorInput.mk (Some "a-2"%string) "walter" "the-dude" undefined undefined in
  let ca := CreateCollectionAuthorInput.mk "Donny" None None None in
  let ua := UpdateCollectionAuthorInput.mk (Some "a-2"%string) "walter" "his-dudeness" undefined undefined in
  fst (run (createAuthor slugify_ascii "a-3" dup) sampleDb)
  = Throw (Error (author_slug_exists "the-dude"))
  /\ fst (run (updateAuthor taken) sampleDb)
     = Throw (Error (author_slug_exists "the-dude"))
  /\ NoDup (author_slugs (store (run (createAuthor slugify_ascii "a-3" ca) sampleDb)))
  /\ NoDup (author_slugs (store (run (updateAuthor ua) sampleDb))).
Proof.
  assert (Hs : NoDup (author_slugs sampleDb)).
  { repeat constructor; simpl; intuition discriminate. }
  assert (He : NoDup (author_externalIds sampleDb)).
  { repeat constructor; simpl; intuition discriminate. }
  pose proof (author_slugs_stay_unique slugify_ascii "a-3"
                (CreateCollectionAuthorInput.mk "The Dude" None None None)
                (UpdateCollectionAuthorInput.mk (Some "a-2"%string) "walter" "the-dude"
                   undefined undefined)
                sampleDb) as [Hdup [Htaken _]].
  pose proof (author_slugs_stay_unique slugify_ascii "a-3"
                (CreateCollectionAuthorInput.mk "Donny" None None None)
                (UpdateCollectionAuthorInput.mk (Some "a-2"%string) "walter" "his-dudeness"
                   undefined undefined)
                sampleDb) as [_ [_ [Hcreate Hupdate]]].
  split; [|split; [|split]].
  - apply Hdup. exists the_dude. split; [simpl; tauto | reflexivity].
  - apply (Htaken "a-2"%string); [reflexivity | discriminate |].
    exists the_dude. split; [simpl; tauto|]. split; [reflexivity | discriminate].
  - exact (Hcreate Hs).
  - exact (Hupdate Hs He).
Defined.

(** The external identifiers stay distinct as well: [updateAuthor] keeps them,
    and [createAuthor] adds the generated one. *)
Lemma author_externalIds_stay_unique (slugify : string -> string) (uuid : string)
    (ca : CreateCollectionAuthorInput.t) (ua : UpdateCollectionAuthorInput.t) (d : Db) :
  NoDup (author_externalIds d) ->
  ~ In uuid (author_externalIds d) ->
  NoDup (author_externalIds (store (run (createAuthor slugify uuid ca) d)))
  /\ NoDup (author_externalIds (store (run (updateAuthor ua) d))).
Proof.
  intros He Hu. unfold author_externalIds in *. split.
  - unfold createAuthor. run_unfold. unfold Table.count.
    destruct (0 <? _)%nat; simpl; [assumption|].
    rewrite map_app. simpl. now apply NoDup_snoc.
  - unfold updateAuthor.
    destruct (UpdateCollectionAuthorInput.externalId ua) as [e|]; [|assumption].
    destruct (String.eqb e EmptyString); [assumption|].
    run_unfold. unfold Table.count, Table.update.
    destruct (0 <? _)%nat; simpl; [assumption|].
    destruct (find _ _) as [a|]; simpl; [|assumption].
    rewrite replaceFirst_externalId; [assumption | reflexivity].
Qed.

(** ** Collections *)

Lemma getCollection_found (e : string) (d : Db) (c : Collection.t) :
  fst (run (getCollection e) d) = Ok (Some c) ->
  In c (Table.rows (collection d)) /\ Collection.externalId c = e.
Proof.
  run_unfold. unfold Table.findUnique. intros H. injection H as H.
  apply find_some in H. destruct H as [Hin He]. now apply String.eqb_eq in He.
Qed.

(** C7, as the code has it. [createCollection] sets neither the status nor
    [publishedAt]: it spreads its input into the row to create. A collection
    created from an input that carries no status has the status [draft], and
    one created from an input that carries no [publishedAt] has none (the
    defaults of the columns); a status or a [publishedAt] that the input
    carries is the one of the row. The row is the one row added to the table;
    and the call does create a collection whenever no collection has the slug
    yet and the author to connect exists. *)
Theorem createCollection_draft_unpublished (uuid : string)
    (data : CreateCollectionInput.t) (d : Db) :
  let r := run (createCollection uuid data) d in
  (forall c, fst r = Ok c ->
     (CreateCollectionInput.status data = None -> Collection.status c = draft)
     /\ (forall s, CreateCollectionInput.status data = Some s -> Collection.status c = s)
     /\ (CreateCollectionInput.publishedAt data = None -> Collection.publishedAt c = None)
     /\ (forall t, CreateCollectionInput.publishedAt data = Some t ->
           Collection.publishedAt c = Some t)
     /\ Table.rows (collection (store r)) = Table.rows (collection d) ++ [c])
  /\ ((forall c, In c (Table.rows (collection d)) ->
         Collection.slug c <> CreateCollectionInput.slug data) ->
      (exists a, In a (Table.rows (collectionAuthor d))
                 /\ CollectionAuthor.externalId a = CreateCollectionInput.authorExternalId data) ->
      exists c, fst r = Ok c).
Proof.
  split.
  - intros c. unfold createCollection. run_unfold. unfold Table.count.
    destruct (0 <? _)%nat; simpl; [discriminate|].
    destruct (connect _ d); simpl; [|discriminate].
    intros H. injection H as <-. simpl.
    split; [intros ->; reflexivity|]. split; [intros s ->; reflexivity|].
    split; [intros ->; reflexivity|]. split; [intros t ->; reflexivity|]. reflexivity.
  - intros Hfresh Hauthor. unfold createCollection. run_unfold. unfold Table.count.
    match goal with |- context [(0 <? ?n)%nat] =>
      assert (E : (0 <? n)%nat = false) end.
    { apply filter_none. intros c Hc. apply String.eqb_neq. auto. }
    rewrite E. simpl.
    destruct (connect_found _ _ Hauthor) as [a [_ [_ ->]]]. simpl. eauto.
Qed.

Lemma createCollection_draft_unpublished_witness :
  let data := CreateCollectionInput.mk "walter-bowls" "walter bowls" None None "a-2" in
  let r := run (createCollection "c-3" data) sampleDb in
  exists c, fst r = Ok c
            /\ Collection.status c = draft
            /\ Collection.publishedAt c = None
            /\ Table.rows (collection (store r)) = [bowling; ringing] ++ [c].
Proof.
  pose proof (createCollection_draft_unpublished "c-3"
                (CreateCollectionInput.mk "walter-bowls" "walter bowls" None None "a-2") sampleDb)
    as [Hok Hex].
  destruct Hex as [c Hc].
  - intros c [<-|[<-|[]]]; discriminate.
  - exists walter. split; [simpl; tauto | reflexivity].
  - destruct (Hok c Hc) as [Hs [_ [Hp [_ Hrows]]]].
    exists c. split; [exact Hc|]. split; [exact (Hs eq_refl)|].
    split; [exact (Hp eq_refl) | exact Hrows].
Defined.

(** C7, as stated, fails: the status and the [publishedAt] of the new row are
    not draft and empty "regardless of the input". An input that carries the
    published status and a [publishedAt] creates a published collection with
    that [publishedAt]. *)
Lemma createCollection_not_always_draft :
  let data := CreateCollectionInput.mk "walter-bowls" "walter bowls" (Some published)
                (Some 9) "a-2" in
  let r := run (createCollection "c-3" data) sampleDb in
  fst r = Ok (Collection.mk 3 "c-3" "walter-bowls" "walter bowls" published (Some 9) [2])
  /\ Table.rows (collection (store r))
     = [bowling; ringing;
        Collection.mk 3 "c-3" "walter-bowls" "walter bowls" published (Some 9) [2]].
Proof. split; reflexivity. Qed.

(** C2. [createCollection] throws [A collection with the slug <slug> already
    exists] when a collection with the input slug exists; [updateCollection]
    throws the same when the input changes the slug to one used by a different
    collection; an update that keeps the collection's own slug raises no error
    of the mutation (no uniqueness check is made) and, the author to connect
    being there, returns the updated collection. *)
Theorem collection_slug_uniqueness (uuid : string) (now : Date)
    (cc : CreateCollectionInput.t) (uc : UpdateCollectionInput.t) (d : Db) :
  let r1 := run (createCollection uuid cc) d in
  let r2 := run (updateCollection now uc) d in
  let found existing :=
    fst (run (getCollection (UpdateCollectionInput.externalId uc)) d) = Ok (Some existing) in
  ((exists c, In c (Table.rows (collection d))
              /\ Collection.slug c = CreateCollectionInput.slug cc) ->
   fst r1 = Throw (Error ("A collection with the slug " ++ CreateCollectionInput.slug cc
                          ++ " already exists")))
  /\ (forall existing, found existing ->
      Collection.slug existing <> UpdateCollectionInput.slug uc ->
      (exists c, In c (Table.rows (collection d))
                 /\ Collection.slug c = UpdateCollectionInput.slug uc
                 /\ Collection.externalId c <> Collection.externalId existing) ->
      fst r2 = Throw (Error ("A collection with the slug " ++ UpdateCollectionInput.slug uc
                             ++ " already exists")))
  /\ (forall existing, found existing ->
      Collection.slug existing = UpdateCollectionInput.slug uc ->
      (forall message, fst r2 <> Throw (Error message))
      /\ ~ In (collection_, count) (calls r2)
      /\ ((exists a, In a (Table.rows (collectionAuthor d))
                     /\ CollectionAuthor.externalId a
                        = UpdateCollectionInput.authorExternalId uc) ->
          exists c, fst r2 = Ok c
                    /\ Collection.slug c = Collection.slug existing
                    /\ Collection.externalId c = Collection.externalId existing)).
Proof.
  intros r1 r2 found. subst r1 r2 found. simpl.
  split; [|split].
  - intros [c [Hin Hc]]. unfold createCollection. run_unfold. unfold Table.count.
    match goal with |- context [(0 <? ?n)%nat] =>
      assert (E : (0 <? n)%nat = true) end.
    { apply filter_nonempty. exists c. split; [assumption | now apply String.eqb_eq]. }
    rewrite E. reflexivity.
  - intros existing Hget Hne [c [Hin [Hc Hce]]]. unfold updateCollection. run_unfold.
    injection Hget as Hget. rewrite Hget. simpl.
    apply String.eqb_neq in Hne. rewrite Hne. simpl. unfold Table.count.
    match goal with |- context [(0 <? ?n)%nat] =>
      assert (E : (0 <? n)%nat = true) end.
    { apply filter_nonempty. exists c. split; [assumption|].
      apply andb_true_intro. split; [now apply String.eqb_eq|].
      apply negb_true_iff. rewrite orb_false_r. now apply String.eqb_neq. }
    rewrite E. reflexivity.
  - intros existing Hget Heq.
    pose proof (getCollection_found _ _ _ Hget) as [_ Hext].
    unfold updateCollection. run_unfold.
    injection Hget as Hget. rewrite Hget. simpl.
    apply String.eqb_eq in Heq. rewrite Heq. simpl.
    unfold Table.update, Table.findUnique in *. rewrite Hget.
    split; [|split].
    + intros message. unfold connect, P2025.
      destruct (Table.findUnique _ _); simpl; discriminate.
    + unfold connect. destruct (Table.findUnique _ _); simpl;
        intros [H|[H|[]]]; discriminate.
    + intros Hauthor. destruct (connect_found _ _ Hauthor) as [a [_ [_ ->]]]. simpl.
      eexists. split; [reflexivity|]. simpl. apply String.eqb_eq in Heq. auto.
Qed.

(** On the store of the examples: a second "let-us-go-bowling" is refused, on
    create and on update of the other collection; an update of that collection
    under its own slug goes through. *)
Lemma collection_slug_uniqueness_witness :
  let cc := CreateCollectionInput.mk "let-us-go-bowling" "again" None None "a-1" in
  let taken := UpdateCollectionInput.mk "c-2" "let-us-go-bowling" "phone" None undefined "a-2" in
  let kept := UpdateCollectionInput.mk "c-2" "phone-is-ringing" "second iteration" None undefined "a-2" in
  fst (run (createCollection "c-3" cc) sampleDb)
  = Throw (Error "A collection with the slug let-us-go-bowling already exists")
  /\ fst (run (updateCollection 7 taken) sampleDb)
     = Throw (Error "A collection with the slug let-us-go-bowling already exists")
  /\ exists c, fst (run (updateCollection 7 kept) sampleDb) = Ok c
               /\ Collection.slug c = "phone-is-ringing"%string
               /\ Collection.externalId c = "c-2"%string.
Proof.
  pose proof (collection_slug_uniqueness "c-3" 7
                (CreateCollectionInput.mk "let-us-go-bowling" "again" None None "a-1")
                (UpdateCollectionInput.mk "c-2" "let-us-go-bowling" "phone" None undefined "a-2")
                sampleDb) as [Hcreate [Htaken _]].
  pose proof (collection_slug_uniqueness "c-3" 7
                (CreateCollectionInput.mk "let-us-go-bowling" "again" None None "a-1")
                (UpdateCollectionInput.mk "c-2" "phone-is-ringing" "second iteration"
                   None undefined "a-2")
                sampleDb) as [_ [_ Hkept]].
  split; [|split].
  - apply Hcreate. exists bowling. split; [simpl; tauto | reflexivity].
  - apply (Htaken ringing); [reflexivity | discriminate |].
    exists bowling. split; [simpl; tauto|]. split; [reflexivity | discriminate].
  - apply (Hkept ringing eq_refl eq_refl). exists walter. split; [simpl; tauto | reflexivity].
Defined.

(** *** [publishedAt] *)

(** The transition into the published status, as [updateCollection] tests
    it. *)
Definition publishes (existing : Collection.t) (data : UpdateCollectionInput.t) : Prop :=
  Collection.status existing <> published
  /\ UpdateCollectionInput.status data = Some published.

(** C1, as the code has it. When the existing record is not published and the
    input's status is published, [updateCollection] sets [publishedAt] to the
    current time (on every such transition, whatever the input carries); on
    any other update, those of a collection that stays published included,
    [publishedAt] is what the input, spread into the update, makes it: left
    unchanged when the input has no [publishedAt] field, cleared when the
    field is [null], and the date of the input when it has one.
    The update goes through when the slug passes the uniqueness check and the
    author to connect exists, and the row is then the one a lookup returns. *)
Theorem updateCollection_publishedAt (now : Date) (data : UpdateCollectionInput.t)
    (existing : Collection.t) (d : Db) :
  fst (run (getCollection (UpdateCollectionInput.externalId data)) d) = Ok (Some existing) ->
  (Collection.slug existing = UpdateCollectionInput.slug data
   \/ forall c, In c (Table.rows (collection d)) ->
        Collection.slug c = UpdateCollectionInput.slug data ->
        Collection.externalId c = Collection.externalId existing) ->
  (exists a, In a (Table.rows (collectionAuthor d))
             /\ CollectionAuthor.externalId a = UpdateCollectionInput.authorExternalId data) ->
  let r := run (updateCollection now data) d in
  exists c,
    fst r = Ok c
    /\ fst (run (getCollection (UpdateCollectionInput.externalId data)) (store r))
       = Ok (Some c)
    /\ (publishes existing data -> Collection.publishedAt c = Some now)
    /\ (~ publishes existing data ->
        UpdateCollectionInput.publishedAt data = undefined ->
        Collection.publishedAt c = Collection.publishedAt existing)
    /\ (~ publishes existing data ->
        UpdateCollectionInput.publishedAt data = null ->
        Collection.publishedAt c = None)
    /\ (~ publishes existing data ->
        forall t, UpdateCollectionInput.publishedAt data = value t ->
        Collection.publishedAt c = Some t).
Proof.
  intros Hget Hslug Hauthor r. subst r.
  pose proof (getCollection_found _ _ _ Hget) as [_ Hext].
  assert (E : negb (String.eqb (Collection.slug existing)
                               (UpdateCollectionInput.slug data)) = true ->
               (0 <? List.length
                 (filter
                    (fun c => String.eqb (Collection.slug c) (UpdateCollectionInput.slug data)
                              && negb (String.eqb (Collection.externalId c)
                                                  (Collection.externalId existing) || false))
                    (Table.rows (collection d))))%nat = false).
  { intros Hne. apply negb_true_iff, String.eqb_neq in Hne.
    destruct Hslug as [Hslug|Hslug]; [contradiction|].
    apply filter_none. intros c Hc.
    destruct (String.eqb (Collection.slug c) (UpdateCollectionInput.slug data)) eqn:Es;
      [|reflexivity].
    apply String.eqb_eq in Es. rewrite (Hslug c Hc Es), String.eqb_refl. reflexivity. }
  destruct (connect_found _ _ Hauthor) as [a [_ [_ Hconnect]]].
  unfold updateCollection. run_unfold. injection Hget as Hget. rewrite Hget. simpl.
  unfold Table.count, Table.update, Table.findUnique in *.
  destruct (negb (String.eqb (Collection.slug existing) (UpdateCollectionInput.slug data)));
    simpl; try rewrite (E eq_refl); simpl; rewrite Hconnect; simpl; rewrite Hget; simpl.
  all: eexists; split; [reflexivity|]; split; [|split; [|split; [|split]]].
  all: try (f_equal; rewrite (find_replaceFirst _ _ _ existing Hget);
            [reflexivity | simpl; apply String.eqb_refl]).
  all: try (intros [Hs Hp]; simpl; rewrite Hp; simpl;
            destruct (Collection.status existing); simpl; congruence).
  all: try (intros Hn t Ht; simpl; rewrite Ht;
            destruct (Collection.status existing) eqn:Es;
            destruct (UpdateCollectionInput.status data) as [[]|] eqn:Ed; simpl;
            try reflexivity; exfalso; apply Hn; split; congruence).
  all: intros Hn Hnone; simpl; rewrite Hnone;
       destruct (Collection.status existing) eqn:Es;
       destruct (UpdateCollectionInput.status data) as [[]|] eqn:Ed; simpl;
       try reflexivity; exfalso; apply Hn; split; congruence.
Qed.

Lemma updateCollection_publishedAt_witness :
  let data := UpdateCollectionInput.mk "c-1" "let-us-go-bowling" "second iteration"
                (Some published) undefined "a-1" in
  let r := run (updateCollection 7 data) sampleDb in
  exists c, fst r = Ok c
            /\ fst (run (getCollection "c-1") (store r)) = Ok (Some c)
            /\ Collection.publishedAt c = Some 7.
Proof.
  destruct (updateCollection_publishedAt 7
              (UpdateCollectionInput.mk "c-1" "let-us-go-bowling" "second iteration"
                 (Some published) undefined "a-1")
              bowling sampleDb eq_refl) as [c [Hc [Hg [Hp _]]]].
  - left. reflexivity.
  - exists the_dude. split; [simpl; tauto | reflexivity].
  - exists c. split; [exact Hc|]. split; [exact Hg|].
    apply Hp. split; [discriminate | reflexivity].
Defined.

(** The integration test "should not update publishedAt when already
    published": two updates to published, the second with no [publishedAt] of
    its own; the time of the first is kept. *)
Example publishedAt_kept_test :
  let first := UpdateCollectionInput.mk "c-1" "let-us-go-bowling" "second iteration"
                 (Some published) undefined "a-1" in
  let second := UpdateCollectionInput.mk "c-1" "let-us-go-bowling" "third iteration"
                  (Some published) undefined "a-1" in
  let r1 := run (updateCollection 7 first) sampleDb in
  let r2 := run (updateCollection 8 second) (store r1) in
  exists c1 c2, fst r1 = Ok c1 /\ fst r2 = Ok c2
                /\ Collection.publishedAt c1 = Some 7
                /\ Collection.publishedAt c2 = Some 7.
Proof. do 2 eexists. repeat split. Qed.

(** C1, as stated, fails on three counts. An update of a collection that is
    and stays published stores the [publishedAt] the input carries; it clears
    the column when the input carries [publishedAt: null] (as a row read from
    the store and spread into the input does, when it is a draft's); and a
    collection that leaves the published status and enters it again has its
    [publishedAt] set a second time. *)
Lemma updateCollection_publishedAt_not_once :
  (let data := UpdateCollectionInput.mk "c-2" "phone-is-ringing" "third iteration"
                 (Some published) (value 9) "a-2" in
   let r := run (updateCollection 7 data) sampleDb in
   fst (run (getCollection "c-2") sampleDb) = Ok (Some ringing)
   /\ Collection.status ringing = published
   /\ Collection.publishedAt ringing = Some 5
   /\ exists c, fst r = Ok c
                /\ Collection.status c = published
                /\ Collection.publishedAt c = Some 9)
  /\ (let data := UpdateCollectionInput.mk "c-2" "phone-is-ringing" "third iteration"
                    (Some published) null "a-2" in
      let r := run (updateCollection 7 data) sampleDb in
      Collection.publishedAt ringing = Some 5
      /\ exists c, fst r = Ok c
                   /\ Collection.status c = published
                   /\ Collection.publishedAt c = None)
  /\ (let unpublish := UpdateCollectionInput.mk "c-2" "phone-is-ringing" "phone is ringing"
                         (Some draft) undefined "a-2" in
      let publish := UpdateCollectionInput.mk "c-2" "phone-is-ringing" "phone is ringing"
                       (Some published) undefined "a-2" in
      let r1 := run (updateCollection 7 unpublish) sampleDb in
      let r2 := run (updateCollection 8 publish) (store r1) in
      Collection.publishedAt ringing = Some 5
      /\ exists c1 c2, fst r1 = Ok c1 /\ fst r2 = Ok c2
                       /\ Collection.publishedAt c1 = Some 5
                       /\ Collection.publishedAt c2 = Some 8).
Proof.
  split; [|split].
  - repeat split. eexists. repeat split.
  - split; [reflexivity|]. eexists. repeat split.
  - split; [reflexivity|]. do 2 eexists. repeat split.
Qed.

(** ** Lookups that find nothing *)

Lemma updateCollection_not_found (now : Date) (data : UpdateCollectionInput.t) (d : Db) :
  fst (run (getCollection (UpdateCollectionInput.externalId data)) d) = Ok None ->
  fst (run (updateCollection now data) d)
  = Throw (Error "A collection by that ID could not be found").
Proof.
  unfold updateCollection. run_unfold. intros H. injection H as ->. reflexivity.
Qed.

(** The three story mutations read [.id] of what the lookup returned, without
    a test: on [null] it is the runtime that throws, a [TypeError], before any
    write. *)
Lemma story_lookup_not_found (name_asc : string -> string -> bool) (uuid : string)
    (cs : CreateCollectionStoryInput.t) (us : UpdateCollectionStoryInput.t)
    (e : string) (d : Db) :
  (fst (run (getCollection (CreateCollectionStoryInput.collectionExternalId cs)) d) = Ok None ->
   run (createCollectionStory name_asc uuid cs) d
   = (Throw (TypeError "id"), mkWorld d [mkEvent (collection_, findUnique) d]))
  /\ (fst (run (getCollectionStory (UpdateCollectionStoryInput.externalId us)) d) = Ok None ->
      run (updateCollectionStory name_asc us) d
      = (Throw (TypeError "id"), mkWorld d [mkEvent (collectionStory_, findUnique) d]))
  /\ (fst (run (getCollectionStory e) d) = Ok None ->
      run (deleteCollectionStory e) d
      = (Throw (TypeError "id"), mkWorld d [mkEvent (collectionStory_, findUnique) d])).
Proof.
  unfold createCollectionStory, updateCollectionStory, deleteCollectionStory.
  run_unfold. repeat split; intros H; injection H as H.
  - now rewrite H.
  - destruct (Table.findUnique _ _); [discriminate | reflexivity].
  - destruct (Table.findUnique _ _); [discriminate | reflexivity].
Qed.

(** C3, on the store of the examples, with external identifiers no row has.
    [updateCollection] raises its own error, with a message; the three story
    mutations do not: what is thrown is the [TypeError] of reading [id] of
    [null]. *)
Theorem lookups_not_found_sample :
  fst (run (updateCollection 7
              (UpdateCollectionInput.mk "c-9" "nine" "nine" None undefined "a-1")) sampleDb)
  = Throw (Error "A collection by that ID could not be found")
  /\ fst (run (createCollectionStory String.leb "s-2"
                 (CreateCollectionStoryInput.mk "c-9" "https://getpocket.com" "a story"
                    "an excerpt" None [] None)) sampleDb)
     = Throw (TypeError "id")
  /\ fst (run (updateCollectionStory String.leb
                 (UpdateCollectionStoryInput.mk "s-9" "https://getpocket.com" "a story"
                    "an excerpt" undefined [] undefined)) sampleDb)
     = Throw (TypeError "id")
  /\ fst (run (deleteCollectionStory "s-9") sampleDb) = Throw (TypeError "id").
Proof. repeat split. Qed.

(** ** Deleting a story *)

(** The join rows that depend on the story with the id [storyId]. *)
Definition story_joins (storyId : Z) (d : Db) : list CollectionStoryAuthor.t :=
  filter (fun a => CollectionStoryAuthor.collectionStoryId a =? storyId)
         (Table.rows (collectionStoryAuthor d)).

Lemma filter_negb_filter {R} (p : R -> bool) (l : list R) :
  filter p (filter (fun r => negb (p r)) l) = [].
Proof.
  induction l as [|x l IH]; simpl; [reflexivity|].
  destruct (p x) eqn:E; simpl; [assumption|]. now rewrite E.
Qed.

Lemma removeFirst_split {R} (p : R -> bool) (l : list R) (x : R) :
  find p l = Some x ->
  exists l1 l2, l = l1 ++ x :: l2 /\ Table.removeFirst p l = l1 ++ l2.
Proof.
  induction l as [|y l IH]; simpl; [discriminate|].
  destruct (p y) eqn:E; intros H.
  - injection H as ->. exists [], l. split; reflexivity.
  - destruct (IH H) as [l1 [l2 [-> Hr]]]. exists (y :: l1), l2. simpl. now rewrite Hr.
Qed.

(** C6. [deleteCollectionStory] on a story that exists issues, after the
    lookup, the removal of the story's author join rows and then the removal
    of the story, in that order; when a removal of a story is issued the store
    holds no join row of that story any more (and when the join rows are
    removed the story is still there); at the end the story and its join rows
    are gone, and the story is returned with the authors it had. *)
Theorem deleteCollectionStory_joins_first (externalId : string) (d : Db)
    (story : CollectionStory.t) (authors : list CollectionStoryAuthor.t) :
  fst (run (getCollectionStory externalId) d) = Ok (Some (story, authors)) ->
  let r := run (deleteCollectionStory externalId) d in
  fst r = Ok (story, authors)
  /\ calls r = [(collectionStory_, findUnique);
                (collectionStoryAuthor_, deleteMany);
                (collectionStory_, delete)]
  /\ (forall ev, In ev (trace (snd r)) ->
        call ev = (collectionStoryAuthor_, deleteMany) ->
        story_joins (CollectionStory.id story) (before ev) = authors
        /\ In story (Table.rows (collectionStory (before ev))))
  /\ (forall ev, In ev (trace (snd r)) ->
        call ev = (collectionStory_, delete) ->
        story_joins (CollectionStory.id story) (before ev) = []
        /\ In story (Table.rows (collectionStory (before ev))))
  /\ story_joins (CollectionStory.id story) (store r) = []
  /\ exists l1 l2,
       Table.rows (collectionStory d) = l1 ++ story :: l2
       /\ Table.rows (collectionStory (store r)) = l1 ++ l2.
Proof.
  intros Hget r. subst r. unfold deleteCollectionStory, story_joins in *. run_unfold.
  unfold Table.findUnique, Table.delete in *. simpl in *.
  destruct (find _ (Table.rows (collectionStory d))) as [s|] eqn:Hfind;
    [|discriminate].
  injection Hget as -> Hauthors. simpl. rewrite Hfind. simpl.
  pose proof (find_some _ _ Hfind) as [Hin _].
  split; [now rewrite Hauthors|]. split; [reflexivity|].
  split; [|split; [|split]].
  - intros ev [<-|[<-|[<-|[]]]]; simpl; try discriminate. intros _. now split.
  - intros ev [<-|[<-|[<-|[]]]]; simpl; try discriminate. intros _.
    split; [apply filter_negb_filter | assumption].
  - apply filter_negb_filter.
  - apply removeFirst_split. assumption.
Qed.

Lemma deleteCollectionStory_joins_first_witness :
  let r := run (deleteCollectionStory "s-1") sampleDb in
  fst r = Ok (a_story, [donny])
  /\ calls r = [(collectionStory_, findUnique);
                (collectionStoryAuthor_, deleteMany);
                (collectionStory_, delete)]
  /\ story_joins 1 (store r) = [].
Proof.
  pose proof (deleteCollectionStory_joins_first "s-1" sampleDb a_story [donny] eq_refl)
    as [Hr [Hc [_ [_ [Hj _]]]]].
  split; [exact Hr|]. split; [exact Hc | exact Hj].
Defined.

(** Whatever the identifier, found or not: no removal of a story is ever
    issued on a store that still holds join rows of that story. *)
Lemma deleteCollectionStory_never_orphans (externalId : string) (d : Db) (ev : Event)
    (s : CollectionStory.t) :
  In ev (trace (snd (run (deleteCollectionStory externalId) d))) ->
  call ev = (collectionStory_, delete) ->
  Table.findUnique (fun x => String.eqb (CollectionStory.externalId x) externalId)
    (collectionStory (before ev)) = Some s ->
  story_joins (CollectionStory.id s) (before ev) = [].
Proof.
  unfold deleteCollectionStory, story_joins. run_unfold.
  unfold Table.findUnique, Table.delete. simpl.
  destruct (find _ (Table.rows (collectionStory d))) as [x|] eqn:Hfind; simpl.
  - rewrite Hfind. simpl.
    intros [<-|[<-|[<-|[]]]]; simpl; try discriminate.
    intros _ Hs. rewrite Hfind in Hs. injection Hs as <-. apply filter_negb_filter.
  - intros [<-|[]]. discriminate.
Qed.

(** ** Images *)

(** With distinct ids, replacing the first row that has the id of [x] replaces
    [x], where it stands. *)
Lemma replaceFirst_split (f : Image.t -> Image.t) (l : list Image.t) (x : Image.t) :
  In x l ->
  NoDup (map Image.id l) ->
  exists l1 l2,
    l = l1 ++ x :: l2
    /\ Table.replaceFirst (fun i => Image.id i =? Image.id x) f l = l1 ++ f x :: l2.
Proof.
  induction l as [|y l IH]; simpl; [tauto|].
  intros Hin Hnd. inversion Hnd as [|? ? Hy Hnd']; subst.
  destruct Hin as [->|Hin].
  - rewrite Z.eqb_refl. exists [], l. split; reflexivity.
  - assert (E : (Image.id y =? Image.id x) = false).
    { apply Z.eqb_neq. intros Heq. apply Hy. rewrite Heq. now apply in_map. }
    rewrite E. destruct (IH Hin Hnd') as [l1 [l2 [-> Hr]]].
    exists (y :: l1), l2. simpl. now rewrite Hr.
Qed.

Lemma replaceFirst_ids (p : Image.t -> bool) (f : Image.t -> Image.t) (l : list Image.t) :
  (forall i, Image.id (f i) = Image.id i) ->
  map Image.id (Table.replaceFirst p f l) = map Image.id l.
Proof.
  intros Hf. induction l as [|y l IH]; simpl; [reflexivity|].
  destruct (p y); simpl; [now rewrite Hf | now rewrite IH].
Qed.

(** C10. [associateImageWithEntity] never creates an image: the ids of the
    image rows and the counter of the table are as before, and no [create] is
    issued. When the entity's [imageUrl] is empty it returns nothing, without
    a call, and the store is unchanged; when no image has the [imageUrl] as its
    path it returns nothing and the store is unchanged; otherwise (the ids of
    the images being distinct) it returns the image found with [entityId] and
    [entityType] set, and the store differs in that one row only. *)
Theorem associateImageWithEntity_frame (entity : Entity.t) (entityType : ImageEntityType)
    (d : Db) :
  let r := run (associateImageWithEntity entity entityType) d in
  (map Image.id (Table.rows (image (store r))) = map Image.id (Table.rows (image d))
   /\ Table.nextId (image (store r)) = Table.nextId (image d)
   /\ ~ In (image_, create) (calls r))
  /\ (Entity.imageUrl entity = None \/ Entity.imageUrl entity = Some EmptyString ->
      fst r = Ok None /\ store r = d /\ calls r = [])
  /\ (forall url, Entity.imageUrl entity = Some url -> url <> EmptyString ->
      (forall i, In i (Table.rows (image d)) -> Image.path i <> url) ->
      fst r = Ok None /\ store r = d)
  /\ (forall url found, Entity.imageUrl entity = Some url -> url <> EmptyString ->
      Table.findUnique (fun i => String.eqb (Image.path i) url) (image d) = Some found ->
      NoDup (map Image.id (Table.rows (image d))) ->
      let updated := Image.mk (Image.id found) (Image.path found)
                       (Some (Entity.id entity)) (Some entityType) in
      fst r = Ok (Some updated)
      /\ exists l1 l2,
           Table.rows (image d) = l1 ++ found :: l2
           /\ store r = set_image (Table.mk (l1 ++ updated :: l2) (Table.nextId (image d))) d).
Proof.
  intros r. subst r. unfold associateImageWithEntity.
  split; [|split; [|split]].
  - destruct (Entity.imageUrl entity) as [url|]; [|run_unfold; repeat split; tauto].
    destruct (String.eqb url EmptyString); run_unfold; [repeat split; tauto|].
    unfold Table.findUnique, Table.update.
    destruct (find _ (Table.rows (image d))) as [i|] eqn:Hf; simpl.
    + assert (Hi : find (fun i0 => Image.id i0 =? Image.id i) (Table.rows (image d))
                   <> None).
      { intros Hn. apply find_some in Hf. destruct Hf as [Hin _].
        apply (find_none _ _ Hn) in Hin. rewrite Z.eqb_refl in Hin. discriminate. }
      destruct (find (fun i0 => Image.id i0 =? Image.id i) _); [|contradiction].
      simpl. split; [|split].
      * now apply replaceFirst_ids.
      * reflexivity.
      * intros [H|[H|[]]]; discriminate.
    + repeat split. intros [H|[]]; discriminate.
  - intros [->| ->]; now run_unfold.
  - intros url Hu Hne Hnone. rewrite Hu.
    apply String.eqb_neq in Hne. rewrite Hne. run_unfold. unfold Table.findUnique.
    assert (Hf : find (fun i => String.eqb (Image.path i) url) (Table.rows (image d)) = None).
    { destruct (find _ _) as [i|] eqn:Hf; [|reflexivity].
      apply find_some in Hf. destruct Hf as [Hin Hp]. apply String.eqb_eq in Hp.
      now apply Hnone in Hin. }
    rewrite Hf. now split.
  - intros url found Hu Hne Hfound Hnd. rewrite Hu.
    apply String.eqb_neq in Hne. rewrite Hne. run_unfold.
    unfold Table.findUnique, Table.update in *. rewrite Hfound. simpl.
    pose proof (find_some _ _ Hfound) as [Hin _].
    destruct (replaceFirst_split
                (fun i => Image.mk (Image.id i) (Image.path i)
                            (Some (Entity.id entity)) (Some entityType))
                _ _ Hin Hnd) as [l1 [l2 [Hl Hr]]].
    assert (Hi : find (fun i0 => Image.id i0 =? Image.id found) (Table.rows (image d))
                 = Some found).
    { rewrite Hl in *. clear -Hnd. induction l1 as [|y l1 IH]; simpl in *.
      - now rewrite Z.eqb_refl.
      - inversion Hnd as [|? ? Hy Hnd']; subst.
        assert (E : (Image.id y =? Image.id found) = false).
        { apply Z.eqb_neq. intros Heq. apply Hy. rewrite Heq, map_app. apply in_or_app.
          right. now left. }
        rewrite E. auto. }
    rewrite Hi. simpl. split; [reflexivity|].
    exists l1, l2. split; [assumption|]. now rewrite Hr.
Qed.

Lemma associateImageWithEntity_frame_witness :
  let entity := Entity.mk 1 (Some "https://other.image"%string) in
  let r := run (associateImageWithEntity entity COLLECTION_STORY) sampleDb in
  fst r = Ok (Some (Image.mk 2 "https://other.image" (Some 1) (Some COLLECTION_STORY)))
  /\ exists l1 l2,
       [some_image; other_image] = l1 ++ other_image :: l2
       /\ store r
          = set_image
              (Table.mk (l1 ++ Image.mk 2 "https://other.image" (Some 1)
                                  (Some COLLECTION_STORY) :: l2) 3)
              sampleDb.
Proof.
  assert (Hnd : NoDup (map Image.id (Table.rows (image sampleDb)))).
  { repeat constructor; simpl; intuition discriminate. }
  pose proof (associateImageWithEntity_frame
                (Entity.mk 1 (Some "https://other.image"%string)) COLLECTION_STORY
                sampleDb) as [_ [_ [_ H]]].
  apply (H "https://other.image"%string other_image);
    [reflexivity | discriminate | reflexivity | exact Hnd].
Defined.

(** * Further properties of the mutations *)

(** ** Rows of a table, one at a time *)

Lemma replaceFirst_find_split {R} (p : R -> bool) (f : R -> R) (l : list R) (x : R) :
  find p l = Some x ->
  exists l1 l2,
    l = l1 ++ x :: l2
    /\ Table.replaceFirst p f l = l1 ++ f x :: l2
    /\ forall y, In y l1 -> p y = false.
Proof.
  induction l as [|y l IH]; simpl; [discriminate|].
  destruct (p y) eqn:E; intros H.
  - injection H as ->. exists [], l. repeat split. intros ? [].
  - destruct (IH H) as [l1 [l2 [-> [Hr Hl1]]]]. exists (y :: l1), l2. simpl.
    rewrite Hr. repeat split. intros z [<-|Hz]; auto.
Qed.

Lemma removeFirst_find_split {R} (p : R -> bool) (l : list R) (x : R) :
  find p l = Some x ->
  exists l1 l2,
    l = l1 ++ x :: l2
    /\ Table.removeFirst p l = l1 ++ l2
    /\ forall y, In y l1 -> p y = false.
Proof.
  induction l as [|y l IH]; simpl; [discriminate|].
  destruct (p y) eqn:E; intros H.
  - injection H as ->. exists [], l. repeat split. intros ? [].
  - destruct (IH H) as [l1 [l2 [-> [Hr Hl1]]]]. exists (y :: l1), l2. simpl.
    rewrite Hr. repeat split. intros z [<-|Hz]; auto.
Qed.

Lemma map_replaceFirst {R B} (g : R -> B) (p : R -> bool) (f : R -> R) (l : list R) :
  (forall x, g (f x) = g x) ->
  map g (Table.replaceFirst p f l) = map g l.
Proof.
  intros Hg. induction l as [|y l IH]; simpl; [reflexivity|].
  destruct (p y); simpl; [now rewrite Hg | now rewrite IH].
Qed.

Lemma find_app_skip {R} (p : R -> bool) (l1 l2 : list R) :
  (forall y, In y l1 -> p y = false) ->
  find p (l1 ++ l2) = find p l2.
Proof.
  induction l1 as [|y l1 IH]; simpl; [reflexivity|].
  intros H. rewrite (H y) by now left. auto.
Qed.

Lemma NoDup_map_eq {R B} (g : R -> B) (l : list R) (a b : R) :
  NoDup (map g l) -> In a l -> In b l -> g a = g b -> a = b.
Proof.
  induction l as [|x l IH]; simpl; [tauto|].
  intros Hnd Ha Hb Hg. inversion Hnd as [|? ? Hx Hnd']; subst.
  destruct Ha as [->|Ha], Hb as [->|Hb]; auto.
  - exfalso. apply Hx. rewrite Hg. now apply in_map.
  - exfalso. apply Hx. rewrite <- Hg. now apply in_map.
Qed.

(** Rewriting, in the one row with the key [e], a column to a value that no
    row with another key holds keeps the column free of duplicates. *)
Lemma replaceFirst_column_NoDup {R} (key col : R -> string) (e s : string)
    (f : R -> R) (l : list R) :
  (forall a, col (f a) = s) ->
  NoDup (map col l) ->
  NoDup (map key l) ->
  (forall a, In a l -> key a <> e -> col a <> s) ->
  NoDup (map col (Table.replaceFirst (fun a => String.eqb (key a) e) f l)).
Proof.
  intros Hf. induction l as [|x l IH]; simpl; intros Hs He Hother; [constructor|].
  inversion Hs as [|? ? Hx Hs']; subst. inversion He as [|? ? Hxe He']; subst.
  destruct (String.eqb (key x) e) eqn:E; simpl.
  - apply String.eqb_eq in E. constructor; [|assumption].
    rewrite Hf. intros Hin. apply in_map_iff in Hin. destruct Hin as [a [Ha Hin]].
    apply (Hother a); [now right | | assumption].
    intros Hae. apply Hxe. apply in_map_iff. exists a. split; [congruence | assumption].
  - apply String.eqb_neq in E. constructor.
    + intros Hin. apply in_map_iff in Hin. destruct Hin as [a [Ha Hin]].
      apply replaceFirst_In in Hin. destruct Hin as [Hin|[r [_ ->]]].
      * apply Hx. apply in_map_iff. eauto.
      * rewrite Hf in Ha. apply (Hother x); [now left | assumption | congruence].
    + apply IH; auto.
Qed.

(** ** What a run of a collection mutation comes to *)

(** The row [updateCollection] writes over the row [c]: [existing] is the
    record as looked up, [author] the id of the author connected. *)
Definition updatedCollection (now : Date) (data : UpdateCollectionInput.t)
    (existing : Collection.t) (author : Z) (c : Collection.t) : Collection.t :=
  Collection.mk (Collection.id c)
    (UpdateCollectionInput.externalId data)
    (UpdateCollectionInput.slug data)
    (UpdateCollectionInput.title data)
    (assign (UpdateCollectionInput.status data) (Collection.status c))
    (assignNullable
       (if negb (CollectionStatus_eqb (Collection.status existing) published)
           && match UpdateCollectionInput.status data with
              | Some s => CollectionStatus_eqb s published
              | None => false
              end
        then value now
        else UpdateCollectionInput.publishedAt data)
       (Collection.publishedAt c))
    [author].

(** The slug of the input passes [updateCollection]'s check: it is the slug
    the record has, or no other collection has it. *)
Definition slug_free_for (existing : Collection.t) (slug : string) (d : Db) : Prop :=
  Collection.slug existing = slug
  \/ forall c, In c (Table.rows (collection d)) ->
       Collection.slug c = slug ->
       Collection.externalId c = Collection.externalId existing.

Lemma updateCollection_cases (now : Date) (data : UpdateCollectionInput.t) (d : Db) :
  let r := run (updateCollection now data) d in
  (exists e, fst r = Throw e /\ store r = d)
  \/ (exists existing a,
        Table.findUnique
          (fun c => String.eqb (Collection.externalId c)
                      (UpdateCollectionInput.externalId data))
          (collection d) = Some existing
        /\ slug_free_for existing (UpdateCollectionInput.slug data) d
        /\ Table.findUnique
             (fun a => String.eqb (CollectionAuthor.externalId a)
                         (UpdateCollectionInput.authorExternalId data))
             (collectionAuthor d) = Some a
        /\ fst r = Ok (updatedCollection now data existing (CollectionAuthor.id a) existing)
        /\ store r
           = set_collection
               (Table.mk
                  (Table.replaceFirst
                     (fun c => String.eqb (Collection.externalId c)
                                 (UpdateCollectionInput.externalId data))
                     (updatedCollection now data existing (CollectionAuthor.id a))
                     (Table.rows (collection d)))
                  (Table.nextId (collection d)))
               d).
Proof.
  unfold updateCollection, slug_free_for. run_unfold.
  destruct (Table.findUnique _ (collection d)) as [existing|] eqn:Hget; simpl;
    [|left; eauto].
  destruct (negb (String.eqb (Collection.slug existing) (UpdateCollectionInput.slug data)))
    eqn:Eslug; simpl.
  - unfold Table.count. destruct (0 <? _)%nat eqn:E; simpl; [left; eauto|].
    unfold connect. destruct (Table.findUnique _ (collectionAuthor d)) as [a|] eqn:Ha; simpl;
      [|left; eauto].
    unfold Table.update. unfold Table.findUnique in Hget. rewrite Hget. simpl.
    right. exists existing, a. repeat split. right. intros c Hc Hs.
    rewrite filter_none in E. specialize (E c Hc).
    apply String.eqb_eq in Hs. rewrite Hs in E. simpl in E.
    rewrite orb_false_r in E. now apply negb_false_iff, String.eqb_eq in E.
  - unfold connect. destruct (Table.findUnique _ (collectionAuthor d)) as [a|] eqn:Ha; simpl;
      [|left; eauto].
    unfold Table.update. unfold Table.findUnique in Hget. rewrite Hget. simpl.
    right. exists existing, a. repeat split. left.
    now apply negb_false_iff, String.eqb_eq in Eslug.
Qed.

Lemma createCollection_cases (uuid : string) (data : CreateCollectionInput.t) (d : Db) :
  let r := run (createCollection uuid data) d in
  (exists e, fst r = Throw e /\ store r = d)
  \/ (exists a,
        (forall c, In c (Table.rows (collection d)) ->
           Collection.slug c <> CreateCollectionInput.slug data)
        /\ Table.findUnique
             (fun a => String.eqb (CollectionAuthor.externalId a)
                         (CreateCollectionInput.authorExternalId data))
             (collectionAuthor d) = Some a
        /\ let c := Collection.mk (Table.nextId (collection d)) uuid
                      (CreateCollectionInput.slug data) (CreateCollectionInput.title data)
                      (assign (CreateCollectionInput.status data) draft)
                      (CreateCollectionInput.publishedAt data)
                      [CollectionAuthor.id a] in
           fst r = Ok c
           /\ store r
              = set_collection
                  (Table.mk (Table.rows (collection d) ++ [c])
                            (Table.nextId (collection d) + 1))
                  d).
Proof.
  unfold createCollection. run_unfold. unfold Table.count.
  destruct (0 <? _)%nat eqn:E; simpl; [left; eauto|].
  unfold connect. destruct (Table.findUnique _ (collectionAuthor d)) as [a|] eqn:Ha; simpl;
    [|left; eauto].
  right. exists a. split; [|split; [reflexivity|]].
  - intros c Hc.
    rewrite filter_none in E. specialize (E c Hc). now apply String.eqb_neq in E.
  - unfold Collection_status_default, Collection_publishedAt_default.
    destruct (CreateCollectionInput.publishedAt data); split; reflexivity.
Qed.

(** ** Collections: the slugs stay distinct *)

Definition collection_slugs (d : Db) : list string :=
  map Collection.slug (Table.rows (collection d)).

Definition collection_externalIds (d : Db) : list string :=
  map Collection.externalId (Table.rows (collection d)).

(** A table of collections with distinct slugs still has distinct slugs after
    [createCollection] and, the external identifiers being distinct, after
    [updateCollection], whether the call returns or throws, and whether the
    update changes the slug (the check is made) or keeps it (no check). *)
Theorem collection_slugs_stay_unique (uuid : string) (now : Date)
    (cc : CreateCollectionInput.t) (uc : UpdateCollectionInput.t) (d : Db) :
  NoDup (collection_slugs d) ->
  NoDup (collection_slugs (store (run (createCollection uuid cc) d)))
  /\ (NoDup (collection_externalIds d) ->
      NoDup (collection_slugs (store (run (updateCollection now uc) d)))).
Proof.
  unfold collection_slugs, collection_externalIds. intros Hs. split.
  - destruct (createCollection_cases uuid cc d) as [[e [_ ->]]|[a [Hfree [_ [_ ->]]]]];
      [assumption|].
    simpl. rewrite map_app. simpl. apply NoDup_snoc; [assumption|].
    intros Hin. apply in_map_iff in Hin. destruct Hin as [c [Hc Hin]].
    now apply (Hfree c Hin).
  - intros He.
    destruct (updateCollection_cases now uc d)
      as [[e [_ ->]]|[existing [a [Hget [Hfree [_ [_ ->]]]]]]]; [assumption|].
    simpl. pose proof (find_some _ _ Hget) as [Hin Hext]. apply String.eqb_eq in Hext.
    apply replaceFirst_column_NoDup with (s := UpdateCollectionInput.slug uc); auto.
    intros c Hc Hce Hslug. apply Hce. rewrite <- Hext.
    destruct Hfree as [Hsame|Hfree]; [|now apply Hfree].
    f_equal. apply (NoDup_map_eq Collection.slug (Table.rows (collection d))); auto.
    congruence.
Qed.

Lemma collection_slugs_stay_unique_witness :
  let cc := CreateCollectionInput.mk "walter-bowls" "walter bowls" None None "a-2" in
  let uc := UpdateCollectionInput.mk "c-2" "phone-rang" "phone rang" None undefined "a-2" in
  NoDup (collection_slugs (store (run (createCollection "c-3" cc) sampleDb)))
  /\ NoDup (collection_slugs (store (run (updateCollection 7 uc) sampleDb))).
Proof.
  assert (Hs : NoDup (collection_slugs sampleDb)).
  { repeat constructor; simpl; intuition discriminate. }
  assert (He : NoDup (collection_externalIds sampleDb)).
  { repeat constructor; simpl; intuition discriminate. }
  destruct (collection_slugs_stay_unique "c-3" 7
              (CreateCollectionInput.mk "walter-bowls" "walter bowls" None None "a-2")
              (UpdateCollectionInput.mk "c-2" "phone-rang" "phone rang" None undefined "a-2")
              sampleDb Hs) as [Hc Hu].
  split; [exact Hc | exact (Hu He)].
Defined.

(** ** Collections: what an update touches *)

(** An update that goes through rewrites the one row looked up, where it
    stands: the row keeps its [id] and external identifier, takes the slug and
    the title of the input, takes the status of the input when there is one
    and keeps its own otherwise, and has for authors the one author of the
    input, whatever authors it had ([set: []] before [connect]). No other
    collection and no other table changes. *)
Theorem updateCollection_frame (now : Date) (data : UpdateCollectionInput.t)
    (existing : Collection.t) (a : CollectionAuthor.t) (d : Db) :
  fst (run (getCollection (UpdateCollectionInput.externalId data)) d) = Ok (Some existing) ->
  slug_free_for existing (UpdateCollectionInput.slug data) d ->
  Table.findUnique
    (fun a => String.eqb (CollectionAuthor.externalId a)
                (UpdateCollectionInput.authorExternalId data))
    (collectionAuthor d) = Some a ->
  let r := run (updateCollection now data) d in
  exists c l1 l2,
    fst r = Ok c
    /\ Table.rows (collection d) = l1 ++ existing :: l2
    /\ Table.rows (collection (store r)) = l1 ++ c :: l2
    /\ Table.nextId (collection (store r)) = Table.nextId (collection d)
    /\ Collection.id c = Collection.id existing
    /\ Collection.externalId c = Collection.externalId existing
    /\ Collection.slug c = UpdateCollectionInput.slug data
    /\ Collection.title c = UpdateCollectionInput.title data
    /\ (UpdateCollectionInput.status data = None ->
        Collection.status c = Collection.status existing)
    /\ (forall s, UpdateCollectionInput.status data = Some s -> Collection.status c = s)
    /\ Collection.authors c = [CollectionAuthor.id a]
    /\ collectionAuthor (store r) = collectionAuthor d
    /\ collectionStory (store r) = collectionStory d
    /\ collectionStoryAuthor (store r) = collectionStoryAuthor d
    /\ image (store r) = image d.
Proof.
  intros Hget Hfree Ha r. subst r.
  assert (Hget' : Table.findUnique
            (fun c => String.eqb (Collection.externalId c)
                        (UpdateCollectionInput.externalId data))
            (collection d) = Some existing).
  { revert Hget. run_unfold. congruence. }
  pose proof (find_some _ _ Hget') as [_ Hext]. apply String.eqb_eq in Hext.
  assert (Hrun :
    fst (run (updateCollection now data) d)
    = Ok (updatedCollection now data existing (CollectionAuthor.id a) existing)
    /\ store (run (updateCollection now data) d)
       = set_collection
           (Table.mk
              (Table.replaceFirst
                 (fun c => String.eqb (Collection.externalId c)
                             (UpdateCollectionInput.externalId data))
                 (updatedCollection now data existing (CollectionAuthor.id a))
                 (Table.rows (collection d)))
              (Table.nextId (collection d)))
           d).
  { unfold updateCollection, slug_free_for in *. run_unfold. rewrite Hget'. simpl.
    destruct (negb (String.eqb (Collection.slug existing)
                               (UpdateCollectionInput.slug data))) eqn:Eslug; simpl.
    - unfold Table.count.
      match goal with |- context [(0 <? ?n)%nat] =>
        assert (E : (0 <? n)%nat = false) end.
      { apply negb_true_iff, String.eqb_neq in Eslug.
        destruct Hfree as [Hfree|Hfree]; [contradiction|].
        apply filter_none. intros c Hc.
        destruct (String.eqb (Collection.slug c) (UpdateCollectionInput.slug data)) eqn:Es;
          [|reflexivity].
        apply String.eqb_eq in Es. rewrite (Hfree c Hc Es), String.eqb_refl. reflexivity. }
      rewrite E. simpl. unfold connect. rewrite Ha. simpl.
      unfold Table.update. unfold Table.findUnique in Hget'. rewrite Hget'. now split.
    - unfold connect. rewrite Ha. simpl.
      unfold Table.update. unfold Table.findUnique in Hget'. rewrite Hget'. now split. }
  destruct Hrun as [Hfst Hstore].
  destruct (replaceFirst_find_split _
              (updatedCollection now data existing (CollectionAuthor.id a)) _ _ Hget')
    as [l1 [l2 [Hl [Hr _]]]].
  exists (updatedCollection now data existing (CollectionAuthor.id a) existing), l1, l2.
  rewrite Hfst, Hstore. simpl. rewrite Hr.
  repeat split; auto.
  - intros Hn. now rewrite Hn.
  - intros s Hs. now rewrite Hs.
Qed.

Lemma updateCollection_frame_witness :
  let data := UpdateCollectionInput.mk "c-2" "phone-rang" "phone rang" None undefined "a-1" in
  let r := run (updateCollection 7 data) sampleDb in
  fst r = Ok (Collection.mk 2 "c-2" "phone-rang" "phone rang" published (Some 5) [1])
  /\ Table.rows (collection (store r))
     = [bowling; Collection.mk 2 "c-2" "phone-rang" "phone rang" published (Some 5) [1]].
Proof.
  destruct (updateCollection_frame 7
              (UpdateCollectionInput.mk "c-2" "phone-rang" "phone rang" None undefined "a-1")
              ringing the_dude sampleDb eq_refl)
    as [c [l1 [l2 [Hc _]]]].
  - right. intros c [<-|[<-|[]]]; [discriminate | reflexivity].
  - reflexivity.
  - split; reflexivity.
Defined.

(** Neither mutation tests that the author to connect exists: with an
    [authorExternalId] that no author has, a creation that passed the slug
    check and an update that passed the lookup and the slug check fail inside
    the client (P2025), with no message of the mutation, and nothing is
    written. *)
Theorem collection_author_missing (uuid : string) (now : Date)
    (cc : CreateCollectionInput.t) (uc : UpdateCollectionInput.t)
    (existing : Collection.t) (d : Db) :
  (forall a, In a (Table.rows (collectionAuthor d)) ->
     CollectionAuthor.externalId a <> CreateCollectionInput.authorExternalId cc
     /\ CollectionAuthor.externalId a <> UpdateCollectionInput.authorExternalId uc) ->
  ((forall c, In c (Table.rows (collection d)) ->
      Collection.slug c <> CreateCollectionInput.slug cc) ->
   fst (run (createCollection uuid cc) d) = Throw P2025
   /\ store (run (createCollection uuid cc) d) = d)
  /\ (fst (run (getCollection (UpdateCollectionInput.externalId uc)) d) = Ok (Some existing) ->
      slug_free_for existing (UpdateCollectionInput.slug uc) d ->
      fst (run (updateCollection now uc) d) = Throw P2025
      /\ store (run (updateCollection now uc) d) = d).
Proof.
  intros Hnone.
  assert (Hc : connect (CreateCollectionInput.authorExternalId cc) d = Throw P2025).
  { unfold connect, Table.findUnique. destruct (find _ _) as [a|] eqn:E; [|reflexivity].
    apply find_some in E. destruct E as [Hin He]. apply String.eqb_eq in He.
    now destruct (Hnone a Hin). }
  assert (Hu : connect (UpdateCollectionInput.authorExternalId uc) d = Throw P2025).
  { unfold connect, Table.findUnique. destruct (find _ _) as [a|] eqn:E; [|reflexivity].
    apply find_some in E. destruct E as [Hin He]. apply String.eqb_eq in He.
    now destruct (Hnone a Hin). }
  split.
  - intros Hfree. unfold createCollection. run_unfold. unfold Table.count.
    match goal with |- context [(0 <? ?n)%nat] =>
      assert (E : (0 <? n)%nat = false) end.
    { apply filter_none. intros c Hin. apply String.eqb_neq. auto. }
    rewrite E. simpl. rewrite Hc. now split.
  - intros Hget Hfree. unfold updateCollection, slug_free_for in *. run_unfold.
    injection Hget as Hget. rewrite Hget. simpl.
    destruct (negb (String.eqb (Collection.slug existing)
                               (UpdateCollectionInput.slug uc))) eqn:Eslug; simpl.
    + unfold Table.count.
      match goal with |- context [(0 <? ?n)%nat] =>
        assert (E : (0 <? n)%nat = false) end.
      { apply negb_true_iff, String.eqb_neq in Eslug.
        destruct Hfree as [Hfree|Hfree]; [contradiction|].
        apply filter_none. intros c Hin.
        destruct (String.eqb (Collection.slug c) (UpdateCollectionInput.slug uc)) eqn:Es;
          [|reflexivity].
        apply String.eqb_eq in Es. rewrite (Hfree c Hin Es), String.eqb_refl. reflexivity. }
      rewrite E. simpl. rewrite Hu. now split.
    + rewrite Hu. now split.
Qed.

Lemma collection_author_missing_witness :
  let cc := CreateCollectionInput.mk "walter-bowls" "walter bowls" None None "a-9" in
  let uc := UpdateCollectionInput.mk "c-2" "phone-is-ringing" "phone" None undefined "a-9" in
  (fst (run (createCollection "c-3" cc) sampleDb) = Throw P2025
   /\ store (run (createCollection "c-3" cc) sampleDb) = sampleDb)
  /\ (fst (run (updateCollection 7 uc) sampleDb) = Throw P2025
      /\ store (run (updateCollection 7 uc) sampleDb) = sampleDb).
Proof.
  destruct (collection_author_missing "c-3" 7
              (CreateCollectionInput.mk "walter-bowls" "walter bowls" None None "a-9")
              (UpdateCollectionInput.mk "c-2" "phone-is-ringing" "phone" None undefined "a-9")
              ringing sampleDb) as [Hc Hu].
  - intros a [<-|[<-|[]]]; split; discriminate.
  - split.
    + apply Hc. intros c [<-|[<-|[]]]; discriminate.
    + apply Hu; [reflexivity | left; reflexivity].
Defined.

(** ** Authors: what an update needs and what it touches *)

(** The row [updateAuthor] writes over the row [a]. *)
Definition updatedAuthor (data : UpdateCollectionAuthorInput.t) (externalId : string)
    (a : CollectionAuthor.t) : CollectionAuthor.t :=
  CollectionAuthor.mk (CollectionAuthor.id a) externalId
    (UpdateCollectionAuthorInput.name data)
    (UpdateCollectionAuthorInput.slug data)
    (assignNullable (UpdateCollectionAuthorInput.bio data) (CollectionAuthor.bio a))
    (assignNullable (UpdateCollectionAuthorInput.imageUrl data) (CollectionAuthor.imageUrl a)).

Lemma updateAuthor_run (data : UpdateCollectionAuthorInput.t) (e : string)
    (a : CollectionAuthor.t) (d : Db) :
  UpdateCollectionAuthorInput.externalId data = Some e ->
  e <> EmptyString ->
  (forall b, In b (Table.rows (collectionAuthor d)) ->
     CollectionAuthor.slug b = UpdateCollectionAuthorInput.slug data ->
     CollectionAuthor.externalId b = e) ->
  Table.findUnique (fun a => String.eqb (CollectionAuthor.externalId a) e)
    (collectionAuthor d) = Some a ->
  fst (run (updateAuthor data) d) = Ok (updatedAuthor data e a)
  /\ store (run (updateAuthor data) d)
     = set_collectionAuthor
         (Table.mk
            (Table.replaceFirst (fun a => String.eqb (CollectionAuthor.externalId a) e)
               (updatedAuthor data e) (Table.rows (collectionAuthor d)))
            (Table.nextId (collectionAuthor d)))
         d.
Proof.
  intros He Hne Hfree Hfind. unfold updateAuthor. rewrite He.
  apply String.eqb_neq in Hne. rewrite Hne. run_unfold. unfold Table.count.
  match goal with |- context [(0 <? ?n)%nat] =>
    assert (E : (0 <? n)%nat = false) end.
  { apply filter_none. intros b Hb.
    destruct (String.eqb (CollectionAuthor.slug b) (UpdateCollectionAuthorInput.slug data))
      eqn:Es; [|reflexivity].
    apply String.eqb_eq in Es. rewrite (Hfree b Hb Es), String.eqb_refl. reflexivity. }
  rewrite E. simpl. unfold Table.update. unfold Table.findUnique in Hfind.
  rewrite Hfind. now split.
Qed.

(** [updateAuthor] returns an author exactly when the input has a non-empty
    [externalId], an author has that external identifier, and every author
    that has the slug of the input has that external identifier too (so an
    author may keep its own slug). *)
Theorem updateAuthor_succeeds_iff (data : UpdateCollectionAuthorInput.t) (d : Db) :
  (exists a', fst (run (updateAuthor data) d) = Ok a')
  <-> exists e,
        UpdateCollectionAuthorInput.externalId data = Some e
        /\ e <> EmptyString
        /\ (exists a, In a (Table.rows (collectionAuthor d))
                      /\ CollectionAuthor.externalId a = e)
        /\ (forall b, In b (Table.rows (collectionAuthor d)) ->
              CollectionAuthor.slug b = UpdateCollectionAuthorInput.slug data ->
              CollectionAuthor.externalId b = e).
Proof.
  split.
  - intros [a' H]. revert H. unfold updateAuthor.
    destruct (UpdateCollectionAuthorInput.externalId data) as [e|]; [|discriminate].
    destruct (String.eqb e EmptyString) eqn:Ee; [discriminate|].
    run_unfold. unfold Table.count, Table.update.
    destruct (0 <? _)%nat eqn:E; simpl; [discriminate|].
    destruct (find _ _) as [a|] eqn:Hf; simpl; [|discriminate].
    intros _. exists e. split; [reflexivity|]. split; [now apply String.eqb_neq|].
    apply find_some in Hf. destruct Hf as [Hin Ha]. apply String.eqb_eq in Ha.
    split; [eauto|]. intros b Hb Hs. rewrite filter_none in E. specialize (E b Hb).
    apply String.eqb_eq in Hs. rewrite Hs in E. simpl in E.
    now apply negb_false_iff, String.eqb_eq in E.
  - intros [e [He [Hne [[a [Hin Ha]] Hfree]]]].
    destruct (find (fun a => String.eqb (CollectionAuthor.externalId a) e)
                (Table.rows (collectionAuthor d))) as [a0|] eqn:Hf.
    + exists (updatedAuthor data e a0). now apply updateAuthor_run.
    + apply (find_none _ _ Hf) in Hin. apply String.eqb_neq in Hin. contradiction.
Qed.

(** An update of an author that goes through rewrites the one row addressed,
    where it stands: the row keeps its [id] and external identifier and takes
    the name and the slug of the input; its [bio] and its [imageUrl] are kept
    when the input has no such field, cleared when the field is [null], and
    the value of the input when it has one. A lookup by the external
    identifier then gives the row returned; no other author and no other
    table changes. *)
Theorem updateAuthor_frame (data : UpdateCollectionAuthorInput.t) (e : string)
    (a : CollectionAuthor.t) (d : Db) :
  UpdateCollectionAuthorInput.externalId data = Some e ->
  e <> EmptyString ->
  (forall b, In b (Table.rows (collectionAuthor d)) ->
     CollectionAuthor.slug b = UpdateCollectionAuthorInput.slug data ->
     CollectionAuthor.externalId b = e) ->
  Table.findUnique (fun a => String.eqb (CollectionAuthor.externalId a) e)
    (collectionAuthor d) = Some a ->
  let r := run (updateAuthor data) d in
  exists a' l1 l2,
    fst r = Ok a'
    /\ Table.rows (collectionAuthor d) = l1 ++ a :: l2
    /\ Table.rows (collectionAuthor (store r)) = l1 ++ a' :: l2
    /\ Table.findUnique (fun a => String.eqb (CollectionAuthor.externalId a) e)
         (collectionAuthor (store r)) = Some a'
    /\ CollectionAuthor.id a' = CollectionAuthor.id a
    /\ CollectionAuthor.externalId a' = CollectionAuthor.externalId a
    /\ CollectionAuthor.name a' = UpdateCollectionAuthorInput.name data
    /\ CollectionAuthor.slug a' = UpdateCollectionAuthorInput.slug data
    /\ (UpdateCollectionAuthorInput.bio data = undefined ->
        CollectionAuthor.bio a' = CollectionAuthor.bio a)
    /\ (UpdateCollectionAuthorInput.bio data = null -> CollectionAuthor.bio a' = None)
    /\ (forall b, UpdateCollectionAuthorInput.bio data = value b ->
        CollectionAuthor.bio a' = Some b)
    /\ (UpdateCollectionAuthorInput.imageUrl data = undefined ->
        CollectionAuthor.imageUrl a' = CollectionAuthor.imageUrl a)
    /\ (UpdateCollectionAuthorInput.imageUrl data = null ->
        CollectionAuthor.imageUrl a' = None)
    /\ (forall u, UpdateCollectionAuthorInput.imageUrl data = value u ->
        CollectionAuthor.imageUrl a' = Some u)
    /\ collection (store r) = collection d
    /\ collectionStory (store r) = collectionStory d
    /\ collectionStoryAuthor (store r) = collectionStoryAuthor d
    /\ image (store r) = image d.
Proof.
  intros He Hne Hfree Hfind r. subst r.
  destruct (updateAuthor_run data e a d He Hne Hfree Hfind) as [Hfst Hstore].
  destruct (replaceFirst_find_split _ (updatedAuthor data e) _ _ Hfind)
    as [l1 [l2 [Hl [Hr Hl1]]]].
  pose proof (find_some _ _ Hfind) as [_ Hext]. apply String.eqb_eq in Hext.
  exists (updatedAuthor data e a), l1, l2. rewrite Hfst, Hstore. simpl.
  unfold Table.findUnique. simpl. rewrite Hr.
  repeat split; auto.
  - rewrite find_app_skip by assumption. simpl. now rewrite String.eqb_refl.
  - intros Hn. now rewrite Hn.
  - intros Hn. now rewrite Hn.
  - intros b Hb. now rewrite Hb.
  - intros Hn. now rewrite Hn.
  - intros Hn. now rewrite Hn.
  - intros u Hu. now rewrite Hu.
Qed.

Lemma updateAuthor_frame_witness :
  let data := UpdateCollectionAuthorInput.mk (Some "a-2"%string) "el duderino" "el-duderino"
                (value "he abides, man"%string) undefined in
  let r := run (updateAuthor data) sampleDb in
  let a' := CollectionAuthor.mk 2 "a-2" "el duderino" "el-duderino"
              (Some "he abides, man"%string) None in
  fst r = Ok a'
  /\ Table.rows (collectionAuthor (store r)) = [the_dude; a'].
Proof.
  destruct (updateAuthor_frame
              (UpdateCollectionAuthorInput.mk (Some "a-2"%string) "el duderino" "el-duderino"
                 (value "he abides, man"%string) undefined)
              "a-2" walter sampleDb eq_refl)
    as [a' [l1 [l2 [Ha' _]]]].
  - discriminate.
  - intros b [<-|[<-|[]]]; [discriminate | reflexivity].
  - reflexivity.
  - split; reflexivity.
Defined.

(** A [bio] that is there is kept by an update that does not name it, and
    cleared by an update that gives [bio: null]. *)
Example updateAuthor_bio_null :
  let abides := store (run (updateAuthor
                  (UpdateCollectionAuthorInput.mk (Some "a-2"%string) "walter" "walter"
                     (value "he abides, man"%string) undefined)) sampleDb) in
  let kept := run (updateAuthor
                (UpdateCollectionAuthorInput.mk (Some "a-2"%string) "walter" "walter"
                   undefined undefined)) abides in
  let cleared := run (updateAuthor
                   (UpdateCollectionAuthorInput.mk (Some "a-2"%string) "walter" "walter"
                      null undefined)) abides in
  fst kept = Ok (CollectionAuthor.mk 2 "a-2" "walter" "walter"
                   (Some "he abides, man"%string) None)
  /\ fst cleared = Ok (CollectionAuthor.mk 2 "a-2" "walter" "walter" None None).
Proof. split; reflexivity. Qed.

(** [updateAuthor] does not look the author up before it checks the slug. With
    an external identifier that no author has, it throws the duplicate-slug
    error as soon as any author has the slug of the input, and fails inside
    the client (P2025), with no message of its own, when none has; the store
    is unchanged either way. *)
Theorem updateAuthor_unknown_externalId (data : UpdateCollectionAuthorInput.t) (e : string)
    (d : Db) :
  UpdateCollectionAuthorInput.externalId data = Some e ->
  e <> EmptyString ->
  (forall a, In a (Table.rows (collectionAuthor d)) -> CollectionAuthor.externalId a <> e) ->
  let r := run (updateAuthor data) d in
  ((exists b, In b (Table.rows (collectionAuthor d))
              /\ CollectionAuthor.slug b = UpdateCollectionAuthorInput.slug data) ->
   fst r = Throw (Error (author_slug_exists (UpdateCollectionAuthorInput.slug data))))
  /\ ((forall b, In b (Table.rows (collectionAuthor d)) ->
         CollectionAuthor.slug b <> UpdateCollectionAuthorInput.slug data) ->
      fst r = Throw P2025)
  /\ store r = d.
Proof.
  intros He Hne Hnone r. subst r. unfold updateAuthor. rewrite He.
  apply String.eqb_neq in Hne. rewrite Hne. run_unfold. unfold Table.count, Table.update.
  assert (Hf : find (fun a => String.eqb (CollectionAuthor.externalId a) e)
                 (Table.rows (collectionAuthor d)) = None).
  { destruct (find _ _) as [a|] eqn:Hf; [|reflexivity].
    apply find_some in Hf. destruct Hf as [Hin Ha]. apply String.eqb_eq in Ha.
    now apply Hnone in Hin. }
  split; [|split].
  - intros [b [Hb Hs]].
    match goal with |- context [(0 <? ?n)%nat] =>
      assert (E : (0 <? n)%nat = true) end.
    { apply filter_nonempty. exists b. split; [assumption|].
      apply andb_true_intro. split; [now apply String.eqb_eq|].
      apply negb_true_iff, String.eqb_neq. auto. }
    rewrite E. reflexivity.
  - intros Hfree.
    match goal with |- context [(0 <? ?n)%nat] =>
      assert (E : (0 <? n)%nat = false) end.
    { apply filter_none. intros b Hb.
      apply andb_false_iff. left. apply String.eqb_neq. auto. }
    rewrite E. simpl. rewrite Hf. reflexivity.
  - destruct (0 <? _)%nat; simpl; [reflexivity|]. rewrite Hf. reflexivity.
Qed.

Lemma updateAuthor_unknown_externalId_witness :
  let taken := UpdateCollectionAuthorInput.mk (Some "a-9"%string) "donny" "walter" undefined undefined in
  let free := UpdateCollectionAuthorInput.mk (Some "a-9"%string) "donny" "donny" undefined undefined in
  fst (run (updateAuthor taken) sampleDb) = Throw (Error (author_slug_exists "walter"))
  /\ fst (run (updateAuthor free) sampleDb) = Throw P2025
  /\ store (run (updateAuthor free) sampleDb) = sampleDb.
Proof.
  assert (Hnone : forall a, In a (Table.rows (collectionAuthor sampleDb)) ->
                    CollectionAuthor.externalId a <> "a-9"%string).
  { intros a [<-|[<-|[]]]; discriminate. }
  destruct (updateAuthor_unknown_externalId
              (UpdateCollectionAuthorInput.mk (Some "a-9"%string) "donny" "walter" undefined undefined)
              "a-9" sampleDb eq_refl) as [Htaken _]; [discriminate | exact Hnone |].
  destruct (updateAuthor_unknown_externalId
              (UpdateCollectionAuthorInput.mk (Some "a-9"%string) "donny" "donny" undefined undefined)
              "a-9" sampleDb eq_refl) as [_ [Hfree Hstore]]; [discriminate | exact Hnone |].
  split; [|split].
  - apply Htaken. exists walter. split; [simpl; tauto | reflexivity].
  - apply Hfree. intros b [<-|[<-|[]]]; discriminate.
  - exact Hstore.
Defined.

(** ** Creating twice *)

Lemma createAuthor_cases (slugify : string -> string) (uuid : string)
    (data : CreateCollectionAuthorInput.t) (d : Db) :
  let r := run (createAuthor slugify uuid data) d in
  let slug := or_else (CreateCollectionAuthorInput.slug data)
                      (slugify (CreateCollectionAuthorInput.name data)) in
  (exists e, fst r = Throw e /\ store r = d)
  \/ ((forall a, In a (Table.rows (collectionAuthor d)) -> CollectionAuthor.slug a <> slug)
      /\ let a := CollectionAuthor.mk (Table.nextId (collectionAuthor d)) uuid
                    (CreateCollectionAuthorInput.name data) slug
                    (CreateCollectionAuthorInput.bio data)
                    (CreateCollectionAuthorInput.imageUrl data) in
         fst r = Ok a
         /\ store r
            = set_collectionAuthor
                (Table.mk (Table.rows (collectionAuthor d) ++ [a])
                          (Table.nextId (collectionAuthor d) + 1))
                d).
Proof.
  unfold createAuthor. run_unfold. unfold Table.count.
  destruct (0 <? _)%nat eqn:E; simpl; [left; eauto|].
  right. repeat split. intros a Ha.
  rewrite filter_none in E. specialize (E a Ha). now apply String.eqb_neq in E.
Qed.

(** After an author (a collection) has been created, a second creation whose
    slug comes to the same is refused with the duplicate-slug message, and does
    not touch the store the first one left. *)
Theorem create_again_refused (slugify : string -> string) (uuid uuid' : string)
    (ca ca' : CreateCollectionAuthorInput.t) (cc cc' : CreateCollectionInput.t) (d : Db) :
  (forall a, fst (run (createAuthor slugify uuid ca) d) = Ok a ->
     or_else (CreateCollectionAuthorInput.slug ca')
             (slugify (CreateCollectionAuthorInput.name ca')) = CollectionAuthor.slug a ->
     let d1 := store (run (createAuthor slugify uuid ca) d) in
     fst (run (createAuthor slugify uuid' ca') d1)
     = Throw (Error (author_slug_exists (CollectionAuthor.slug a)))
     /\ store (run (createAuthor slugify uuid' ca') d1) = d1)
  /\ (forall c, fst (run (createCollection uuid cc) d) = Ok c ->
        CreateCollectionInput.slug cc' = Collection.slug c ->
        let d1 := store (run (createCollection uuid cc) d) in
        fst (run (createCollection uuid' cc') d1)
        = Throw (Error (collection_slug_exists (Collection.slug c)))
        /\ store (run (createCollection uuid' cc') d1) = d1).
Proof.
  split.
  - intros a Hok Hslug.
    destruct (createAuthor_cases slugify uuid ca d) as [[e [He _]]|[_ [Ha Hstore]]];
      [congruence|].
    rewrite Hok in Ha. injection Ha as ->. simpl. rewrite Hstore.
    unfold createAuthor. rewrite Hslug. run_unfold. unfold Table.count.
    match goal with |- context [(0 <? ?n)%nat] =>
      assert (E : (0 <? n)%nat = true) end.
    { apply filter_nonempty. eexists. split; [apply in_or_app; right; now left|].
      simpl. apply String.eqb_refl. }
    rewrite E. now split.
  - intros c Hok Hslug.
    destruct (createCollection_cases uuid cc d) as [[e [He _]]|[a [_ [_ [Hc Hstore]]]]];
      [congruence|].
    rewrite Hok in Hc. injection Hc as ->. simpl. rewrite Hstore.
    unfold createCollection. rewrite Hslug. run_unfold. unfold Table.count.
    match goal with |- context [(0 <? ?n)%nat] =>
      assert (E : (0 <? n)%nat = true) end.
    { apply filter_nonempty. eexists. split; [apply in_or_app; right; now left|].
      simpl. apply String.eqb_refl. }
    rewrite E. now split.
Qed.

(** The two integration tests "should fail on a duplicate slug", from the
    empty store (with the author the collections connect to). *)
Lemma create_again_refused_witness :
  let dude := CreateCollectionAuthorInput.mk "the dude" (Some "his-dudeness"%string) None None in
  let man := CreateCollectionAuthorInput.mk "walter man" (Some "his-dudeness"%string) None None in
  let d1 := store (run (createAuthor slugify_ascii "a-1" dude) emptyDb) in
  let bowls := CreateCollectionInput.mk "walter-bowls" "walter bowls" None None "a-1" in
  let again := CreateCollectionInput.mk "walter-bowls" "walter bowls, again" None None "a-1" in
  let d2 := store (run (createCollection "c-1" bowls) d1) in
  fst (run (createAuthor slugify_ascii "a-2" man) d1)
  = Throw (Error (author_slug_exists "his-dudeness"))
  /\ fst (run (createCollection "c-2" again) d2)
     = Throw (Error "A collection with the slug walter-bowls already exists").
Proof.
  split.
  - apply (proj1 (create_again_refused slugify_ascii "a-1" "a-2"
                    (CreateCollectionAuthorInput.mk "the dude" (Some "his-dudeness"%string)
                       None None)
                    (CreateCollectionAuthorInput.mk "walter man" (Some "his-dudeness"%string)
                       None None)
                    (CreateCollectionInput.mk "walter-bowls" "walter bowls" None None "a-1")
                    (CreateCollectionInput.mk "walter-bowls" "walter bowls, again" None None "a-1")
                    emptyDb)
             (CollectionAuthor.mk 1 "a-1" "the dude" "his-dudeness" None None)
             eq_refl eq_refl).
  - apply (proj2 (create_again_refused slugify_ascii "c-1" "c-2"
                    (CreateCollectionAuthorInput.mk "the dude" (Some "his-dudeness"%string)
                       None None)
                    (CreateCollectionAuthorInput.mk "walter man" (Some "his-dudeness"%string)
                       None None)
                    (CreateCollectionInput.mk "walter-bowls" "walter bowls" None None "a-1")
                    (CreateCollectionInput.mk "walter-bowls" "walter bowls, again" None None "a-1")
                    (store (run (createAuthor slugify_ascii "a-1"
                                   (CreateCollectionAuthorInput.mk "the dude"
                                      (Some "his-dudeness"%string) None None)) emptyDb)))
             (Collection.mk 1 "c-1" "walter-bowls" "walter bowls" draft None [1])
             eq_refl eq_refl).
Defined.

(** ** Stories and their author join rows *)

(** The name and the sort order an author of a story is given. *)
Definition credited (a : CollectionStoryAuthor.t) : string * Z :=
  (CollectionStoryAuthor.name a, CollectionStoryAuthor.sortOrder a).

Definition credit (a : CollectionStoryAuthorInput.t) : string * Z :=
  (CollectionStoryAuthorInput.name a, CollectionStoryAuthorInput.sortOrder a).

Lemma createStoryAuthors_spec (storyId : Z) (l : list CollectionStoryAuthorInput.t)
    (tb : Table.t CollectionStoryAuthor.t) :
  let tb' := fst (createStoryAuthors storyId l tb) in
  let rs := snd (createStoryAuthors storyId l tb) in
  Table.rows tb' = Table.rows tb ++ rs
  /\ Table.nextId tb' = Table.nextId tb + Z.of_nat (List.length l)
  /\ map credited rs = map credit l
  /\ (forall r, In r rs -> CollectionStoryAuthor.collectionStoryId r = storyId).
Proof.
  revert tb. induction l as [|a l IH]; intros tb; simpl.
  - rewrite app_nil_r, Z.add_0_r. repeat split. intros r [].
  - unfold Table.create. simpl.
    specialize (IH (Table.mk
                      (Table.rows tb
                       ++ [CollectionStoryAuthor.mk (Table.nextId tb) storyId
                             (CollectionStoryAuthorInput.name a)
                             (CollectionStoryAuthorInput.sortOrder a)])
                      (Table.nextId tb + 1))).
    destruct (createStoryAuthors storyId l _) as [tb2 rs]. simpl in *.
    destruct IH as [Hrows [Hnext [Hcred Hsid]]].
    split; [|split; [|split]].
    + rewrite Hrows, <- app_assoc. reflexivity.
    + rewrite Hnext. lia.
    + now rewrite Hcred.
    + intros r [<-|Hr]; [reflexivity | auto].
Qed.

Lemma filter_all {R} (p : R -> bool) (l : list R) :
  (forall r, In r l -> p r = true) -> filter p l = l.
Proof.
  induction l as [|x l IH]; simpl; [reflexivity|].
  intros H. rewrite (H x) by now left. f_equal. auto.
Qed.

Lemma filter_nothing {R} (p : R -> bool) (l : list R) :
  (forall r, In r l -> p r = false) -> filter p l = [].
Proof.
  induction l as [|x l IH]; simpl; [reflexivity|].
  intros H. rewrite (H x) by now left. auto.
Qed.

Lemma filter_filter_negb {R} (p q : R -> bool) (l : list R) :
  (forall r, q r = true -> p r = false) ->
  filter q (filter (fun r => negb (p r)) l) = filter q l.
Proof.
  intros H. induction l as [|x l IH]; simpl; [reflexivity|].
  destruct (p x) eqn:Ep; simpl.
  - destruct (q x) eqn:Eq; [|assumption]. rewrite (H x Eq) in Ep. discriminate.
  - now rewrite IH.
Qed.

(** *** The order of the authors returned, and the range of [sortOrder] *)

Lemma insertBy_perm {R} (le : R -> R -> bool) (x : R) (l : list R) :
  Permutation (insertBy le x l) (x :: l).
Proof.
  induction l as [|y l IH]; simpl; [reflexivity|].
  destruct (le x y); [reflexivity|].
  rewrite IH. apply perm_swap.
Qed.

Lemma orderBy_perm {R} (le : R -> R -> bool) (l : list R) :
  Permutation (orderBy le l) l.
Proof.
  induction l as [|x l IH]; simpl; [reflexivity|].
  unfold orderBy in *. rewrite insertBy_perm. now constructor.
Qed.

Lemma insertBy_sorted {R} (le : R -> R -> bool) (x : R) (l : list R) :
  (forall a b, le a b = true \/ le b a = true) ->
  Sorted (fun a b => le a b = true) l ->
  Sorted (fun a b => le a b = true) (insertBy le x l).
Proof.
  intros Htot. induction l as [|y l IH]; simpl; intros Hs.
  - repeat constructor.
  - destruct (le x y) eqn:E.
    + constructor; [assumption | now constructor].
    + inversion Hs as [|? ? Hs' Hhd]; subst. constructor; [now apply IH|].
      assert (Hyx : le y x = true) by (destruct (Htot x y); congruence).
      destruct l as [|z l]; simpl; [now constructor|].
      destruct (le x z); constructor; [assumption | now inversion Hhd].
Qed.

Lemma orderBy_sorted {R} (le : R -> R -> bool) (l : list R) :
  (forall a b, le a b = true \/ le b a = true) ->
  Sorted (fun a b => le a b = true) (orderBy le l).
Proof.
  intros Htot. induction l as [|x l IH]; simpl; [constructor|].
  now apply insertBy_sorted.
Qed.

(** Every [sortOrder] of the input fits the 32-bit column. *)
Definition sortOrders_fit (l : list CollectionStoryAuthorInput.t) : Prop :=
  forall a, In a l ->
    - 2 ^ 31 <= CollectionStoryAuthorInput.sortOrder a < 2 ^ 31.

Lemma storable_fit (l : list CollectionStoryAuthorInput.t) :
  storable l = true <-> sortOrders_fit l.
Proof.
  unfold storable, sortOrders_fit, int32. rewrite forallb_forall.
  split; intros H a Ha; specialize (H a Ha).
  - apply andb_prop in H. destruct H as [H1 H2].
    apply Z.leb_le in H1. apply Z.ltb_lt in H2. lia.
  - apply andb_true_intro. split; [apply Z.leb_le | apply Z.ltb_lt]; lia.
Qed.

Lemma not_storable_fit (l : list CollectionStoryAuthorInput.t) :
  storable l = false <-> ~ sortOrders_fit l.
Proof.
  rewrite <- storable_fit. destruct (storable l); split; congruence.
Qed.

(** The names in ascending order of [name_asc]. *)
Definition by_name (name_asc : string -> string -> bool)
    (l : list CollectionStoryAuthor.t) : Prop :=
  Sorted (fun a b => name_asc (CollectionStoryAuthor.name a)
                              (CollectionStoryAuthor.name b) = true) l.

Lemma orderBy_byName (name_asc : string -> string -> bool)
    (l : list CollectionStoryAuthor.t) :
  (forall a b, name_asc a b = true \/ name_asc b a = true) ->
  by_name name_asc (orderBy (byName name_asc) l)
  /\ Permutation (orderBy (byName name_asc) l) l.
Proof.
  intros Htot. split; [|apply orderBy_perm].
  apply (orderBy_sorted (byName name_asc)). intros a b. apply Htot.
Qed.

(** When the collection exists and every [sortOrder] fits its column,
    [createCollectionStory] adds one story, with the external identifier
    generated, the [id] of the collection looked up as its [collectionId] and
    the fields of the input, and writes one join row per author of the input,
    in the order of the input, each with the name and the sort order given and
    the [id] of the new story. It returns the story with these join rows in
    ascending order of name (the order of names being total), and touches no
    collection, author or image. *)
Theorem createCollectionStory_creates (name_asc : string -> string -> bool)
    (uuid : string) (data : CreateCollectionStoryInput.t) (c : Collection.t) (d : Db) :
  (forall a b, name_asc a b = true \/ name_asc b a = true) ->
  fst (run (getCollection (CreateCollectionStoryInput.collectionExternalId data)) d)
  = Ok (Some c) ->
  sortOrders_fit (CreateCollectionStoryInput.authors data) ->
  let r := run (createCollectionStory name_asc uuid data) d in
  exists story written returned,
    fst r = Ok (story, returned)
    /\ story = CollectionStory.mk (Table.nextId (collectionStory d)) uuid (Collection.id c)
                 (CreateCollectionStoryInput.url data)
                 (CreateCollectionStoryInput.title data)
                 (CreateCollectionStoryInput.excerpt data)
                 (CreateCollectionStoryInput.imageUrl data)
                 (CreateCollectionStoryInput.publisher data)
    /\ Table.rows (collectionStory (store r)) = Table.rows (collectionStory d) ++ [story]
    /\ Table.rows (collectionStoryAuthor (store r))
       = Table.rows (collectionStoryAuthor d) ++ written
    /\ map credited written = map credit (CreateCollectionStoryInput.authors data)
    /\ (forall a, In a written ->
          CollectionStoryAuthor.collectionStoryId a = CollectionStory.id story)
    /\ Permutation returned written
    /\ by_name name_asc returned
    /\ collection (store r) = collection d
    /\ collectionAuthor (store r) = collectionAuthor d
    /\ image (store r) = image d.
Proof.
  intros Htot Hget Hfit r. subst r. unfold createCollectionStory. run_unfold.
  injection Hget as Hget. rewrite Hget. simpl.
  apply storable_fit in Hfit. rewrite Hfit. unfold Table.create. simpl.
  pose proof (createStoryAuthors_spec (Table.nextId (collectionStory d))
                (CreateCollectionStoryInput.authors data) (collectionStoryAuthor d))
    as [Hrows [_ [Hcred Hsid]]].
  destruct (createStoryAuthors _ _ _) as [joins authors]. simpl in *.
  destruct (orderBy_byName name_asc authors Htot) as [Hsorted Hperm].
  eexists. exists authors. eexists. repeat split; eauto.
Qed.

Lemma createCollectionStory_creates_witness :
  let data := CreateCollectionStoryInput.mk "c-1" "https://getpocket.com/2" "another story"
                "and so on" None
                [CollectionStoryAuthorInput.mk "walter" 1;
                 CollectionStoryAuthorInput.mk "donny" 0] None in
  let r := run (createCollectionStory String.leb "s-2" data) sampleDb in
  exists story written returned,
    fst r = Ok (story, returned)
    /\ CollectionStory.id story = 2
    /\ CollectionStory.collectionId story = 1
    /\ map credited written = [("walter"%string, 1); ("donny"%string, 0)]
    /\ Permutation returned written
    /\ by_name String.leb returned.
Proof.
  destruct (createCollectionStory_creates String.leb "s-2"
              (CreateCollectionStoryInput.mk "c-1" "https://getpocket.com/2" "another story"
                 "and so on" None
                 [CollectionStoryAuthorInput.mk "walter" 1;
                  CollectionStoryAuthorInput.mk "donny" 0] None)
              bowling sampleDb String.leb_total eq_refl)
    as [story [written [returned [Hr [Hs [_ [_ [Hc [_ [Hp [Hn _]]]]]]]]]]].
  - intros a [<-|[<-|[]]]; simpl; lia.
  - exists story, written, returned. rewrite Hs at 2 3. simpl. repeat split; assumption.
Defined.

(** On that input the authors are written as given, walter then donny, and
    returned by name, donny then walter. *)
Example createCollectionStory_order_test :
  let data := CreateCollectionStoryInput.mk "c-1" "https://getpocket.com/2" "another story"
                "and so on" None
                [CollectionStoryAuthorInput.mk "walter" 1;
                 CollectionStoryAuthorInput.mk "donny" 0] None in
  let r := run (createCollectionStory String.leb "s-2" data) sampleDb in
  option_map (fun x => map credited (snd x))
    (match fst r with Ok x => Some x | Throw _ => None end)
  = Some [("donny"%string, 0); ("walter"%string, 1)]
  /\ map credited (story_joins 2 (store r)) = [("walter"%string, 1); ("donny"%string, 0)].
Proof. split; reflexivity. Qed.

(** The story created is the one a lookup by its external identifier then
    returns, with the same author rows (the two results may list them in
    different orders), provided every [sortOrder] fits, the identifier
    generated is new and no join row already refers to the [id] the story is
    given. *)
Theorem createCollectionStory_then_get (name_asc : string -> string -> bool)
    (uuid : string) (data : CreateCollectionStoryInput.t) (c : Collection.t) (d : Db) :
  fst (run (getCollection (CreateCollectionStoryInput.collectionExternalId data)) d)
  = Ok (Some c) ->
  sortOrders_fit (CreateCollectionStoryInput.authors data) ->
  (forall s, In s (Table.rows (collectionStory d)) -> CollectionStory.externalId s <> uuid) ->
  (forall a, In a (Table.rows (collectionStoryAuthor d)) ->
     CollectionStoryAuthor.collectionStoryId a <> Table.nextId (collectionStory d)) ->
  let r := run (createCollectionStory name_asc uuid data) d in
  exists story returned found,
    fst r = Ok (story, returned)
    /\ fst (run (getCollectionStory uuid) (store r)) = Ok (Some (story, found))
    /\ Permutation returned found.
Proof.
  intros Hget Hfit Hfresh Hdangling r. subst r. unfold createCollectionStory. run_unfold.
  injection Hget as Hget. rewrite Hget. simpl.
  apply storable_fit in Hfit. rewrite Hfit. unfold Table.create. simpl.
  pose proof (createStoryAuthors_spec (Table.nextId (collectionStory d))
                (CreateCollectionStoryInput.authors data) (collectionStoryAuthor d))
    as [Hrows [_ [_ Hsid]]].
  destruct (createStoryAuthors _ _ _) as [joins authors]. simpl in *.
  do 2 eexists. exists authors. split; [reflexivity|]. unfold Table.findUnique. simpl.
  rewrite find_app_skip by (intros s Hs; apply String.eqb_neq; auto).
  simpl. rewrite String.eqb_refl. simpl. split; [|apply orderBy_perm].
  do 3 f_equal. rewrite Hrows, filter_app.
  rewrite filter_nothing by (intros a Ha; apply Z.eqb_neq; auto).
  rewrite filter_all by (intros a Ha; apply Z.eqb_eq; auto).
  reflexivity.
Qed.

Lemma createCollectionStory_then_get_witness :
  let data := CreateCollectionStoryInput.mk "c-1" "https://getpocket.com/2" "another story"
                "and so on" None
                [CollectionStoryAuthorInput.mk "walter" 1;
                 CollectionStoryAuthorInput.mk "donny" 0] None in
  let r := run (createCollectionStory String.leb "s-2" data) sampleDb in
  exists story returned found,
    fst r = Ok (story, returned)
    /\ fst (run (getCollectionStory "s-2") (store r)) = Ok (Some (story, found))
    /\ Permutation returned found.
Proof.
  apply (createCollectionStory_then_get String.leb "s-2"
           (CreateCollectionStoryInput.mk "c-1" "https://getpocket.com/2" "another story"
              "and so on" None
              [CollectionStoryAuthorInput.mk "walter" 1;
               CollectionStoryAuthorInput.mk "donny" 0] None)
           bowling sampleDb eq_refl).
  - intros a [<-|[<-|[]]]; simpl; lia.
  - intros s [<-|[]]; discriminate.
  - intros a [<-|[]]; discriminate.
Defined.

(** [updateCollectionStory] on a story that exists, with every [sortOrder]
    fitting its column, replaces the authors of the story: after the call the
    join rows of the story are exactly the ones made from the input, in its
    order (the rows it had are gone), and the authors returned are these rows
    in ascending order of name (the order of names being total). The story
    keeps its [id], external identifier and [collectionId] and stands where it
    stood; the join rows of every other story are as before. *)
Theorem updateCollectionStory_replaces_authors (name_asc : string -> string -> bool)
    (data : UpdateCollectionStoryInput.t)
    (s : CollectionStory.t) (old : list CollectionStoryAuthor.t) (d : Db) :
  (forall a b, name_asc a b = true \/ name_asc b a = true) ->
  fst (run (getCollectionStory (UpdateCollectionStoryInput.externalId data)) d)
  = Ok (Some (s, old)) ->
  sortOrders_fit (UpdateCollectionStoryInput.authors data) ->
  let r := run (updateCollectionStory name_asc data) d in
  exists s' returned l1 l2,
    fst r = Ok (s', returned)
    /\ calls r = [(collectionStory_, findUnique);
                  (collectionStoryAuthor_, deleteMany);
                  (collectionStory_, update)]
    /\ Table.rows (collectionStory d) = l1 ++ s :: l2
    /\ Table.rows (collectionStory (store r)) = l1 ++ s' :: l2
    /\ CollectionStory.id s' = CollectionStory.id s
    /\ CollectionStory.externalId s' = CollectionStory.externalId s
    /\ CollectionStory.collectionId s' = CollectionStory.collectionId s
    /\ CollectionStory.url s' = UpdateCollectionStoryInput.url data
    /\ CollectionStory.title s' = UpdateCollectionStoryInput.title data
    /\ CollectionStory.excerpt s' = UpdateCollectionStoryInput.excerpt data
    /\ map credited (story_joins (CollectionStory.id s) (store r))
       = map credit (UpdateCollectionStoryInput.authors data)
    /\ Permutation returned (story_joins (CollectionStory.id s) (store r))
    /\ by_name name_asc returned
    /\ (forall other, other <> CollectionStory.id s ->
          story_joins other (store r) = story_joins other d).
Proof.
  intros Htot Hget Hfit r. subst r. unfold updateCollectionStory, story_joins. run_unfold.
  unfold Table.findUnique, Table.update, Table.deleteMany in *. simpl in *.
  destruct (find _ (Table.rows (collectionStory d))) as [x|] eqn:Hfind; [|discriminate].
  injection Hget as -> Hold. simpl. rewrite Hfind. simpl.
  apply storable_fit in Hfit. rewrite Hfit.
  pose proof (find_some _ _ Hfind) as [_ Hext]. apply String.eqb_eq in Hext.
  match goal with |- context [createStoryAuthors ?i ?l ?tb] =>
    pose proof (createStoryAuthors_spec i l tb) as [Hrows [_ [Hcred Hsid]]];
    destruct (createStoryAuthors i l tb) as [joins authors]
  end.
  simpl in *.
  match goal with |- context [Table.replaceFirst ?p ?f _] =>
    destruct (replaceFirst_find_split p f _ _ Hfind) as [l1 [l2 [Hl [Hr _]]]]
  end.
  destruct (orderBy_byName name_asc authors Htot) as [Hsorted Hperm].
  assert (Hjoins : filter (fun a => CollectionStoryAuthor.collectionStoryId a
                                    =? CollectionStory.id s) (Table.rows joins) = authors).
  { rewrite Hrows, filter_app, filter_negb_filter. simpl.
    apply filter_all. intros j Hj. apply Z.eqb_eq. auto. }
  do 2 eexists. exists l1, l2. rewrite Hr, Hjoins.
  repeat split; auto.
  intros other Hother. rewrite Hrows, filter_app.
  rewrite (filter_nothing _ authors).
  - rewrite app_nil_r. apply filter_filter_negb.
    intros j Hj. apply Z.eqb_eq in Hj. apply Z.eqb_neq. congruence.
  - intros j Hj. apply Z.eqb_neq. rewrite (Hsid j Hj). auto.
Qed.

Lemma updateCollectionStory_replaces_authors_witness :
  let data := UpdateCollectionStoryInput.mk "s-1" "https://getpocket.com" "a story, retold"
                "all about how" undefined
                [CollectionStoryAuthorInput.mk "walter" 1;
                 CollectionStoryAuthorInput.mk "the dude" 0] undefined in
  let r := run (updateCollectionStory String.leb data) sampleDb in
  exists s' returned,
    fst r = Ok (s', returned)
    /\ map credited (story_joins 1 (store r))
       = [("walter"%string, 1); ("the dude"%string, 0)]
    /\ Permutation returned (story_joins 1 (store r))
    /\ by_name String.leb returned.
Proof.
  destruct (updateCollectionStory_replaces_authors String.leb
              (UpdateCollectionStoryInput.mk "s-1" "https://getpocket.com" "a story, retold"
                 "all about how" undefined
                 [CollectionStoryAuthorInput.mk "walter" 1;
                  CollectionStoryAuthorInput.mk "the dude" 0] undefined)
              a_story [donny] sampleDb String.leb_total eq_refl)
    as [s' [returned [l1 [l2 [Hr [_ [_ [_ [_ [_ [_ [_ [_ [_ [Hc [Hp [Hn _]]]]]]]]]]]]]]]]].
  - intros a [<-|[<-|[]]]; simpl; lia.
  - exists s', returned. repeat split; assumption.
Defined.

(** When the story mutations throw, and what they leave. Their lookup finding
    nothing, they throw the [TypeError] of reading [id] of [null] and the
    store is unchanged. Their lookup finding the record and every [sortOrder]
    fitting its column, they return. A [sortOrder] that does not fit makes the
    nested write fail (P2020): [createCollectionStory] then leaves the store
    unchanged, but [updateCollectionStory] has by then removed the author rows
    of the story in a call of its own, and leaves the story without authors.
    [deleteCollectionStory] returns whenever the story exists. *)
Theorem story_mutations_throw_iff (name_asc : string -> string -> bool) (uuid : string)
    (cs : CreateCollectionStoryInput.t) (us : UpdateCollectionStoryInput.t)
    (externalId : string) (d : Db) :
  let r1 := run (createCollectionStory name_asc uuid cs) d in
  let r2 := run (updateCollectionStory name_asc us) d in
  let r3 := run (deleteCollectionStory externalId) d in
  let collection_of := CreateCollectionStoryInput.collectionExternalId cs in
  let story_of := UpdateCollectionStoryInput.externalId us in
  ((fst (run (getCollection collection_of) d) = Ok None
    /\ fst r1 = Throw (TypeError "id") /\ store r1 = d)
   \/ ((exists c, fst (run (getCollection collection_of) d) = Ok (Some c))
       /\ ~ sortOrders_fit (CreateCollectionStoryInput.authors cs)
       /\ fst r1 = Throw P2020 /\ store r1 = d)
   \/ ((exists c, fst (run (getCollection collection_of) d) = Ok (Some c))
       /\ sortOrders_fit (CreateCollectionStoryInput.authors cs)
       /\ exists x, fst r1 = Ok x))
  /\ ((fst (run (getCollectionStory story_of) d) = Ok None
       /\ fst r2 = Throw (TypeError "id") /\ store r2 = d)
      \/ (exists s old,
            fst (run (getCollectionStory story_of) d) = Ok (Some (s, old))
            /\ ~ sortOrders_fit (UpdateCollectionStoryInput.authors us)
            /\ fst r2 = Throw P2020
            /\ story_joins (CollectionStory.id s) (store r2) = []
            /\ store r2
               = set_collectionStoryAuthor
                   (Table.mk
                      (filter (fun a => negb (CollectionStoryAuthor.collectionStoryId a
                                              =? CollectionStory.id s))
                              (Table.rows (collectionStoryAuthor d)))
                      (Table.nextId (collectionStoryAuthor d)))
                   d)
      \/ ((exists s, fst (run (getCollectionStory story_of) d) = Ok (Some s))
          /\ sortOrders_fit (UpdateCollectionStoryInput.authors us)
          /\ exists x, fst r2 = Ok x))
  /\ ((fst (run (getCollectionStory externalId) d) = Ok None
       /\ fst r3 = Throw (TypeError "id") /\ store r3 = d)
      \/ ((exists s, fst (run (getCollectionStory externalId) d) = Ok (Some s))
          /\ exists x, fst r3 = Ok x)).
Proof.
  unfold createCollectionStory, updateCollectionStory, deleteCollectionStory, story_joins.
  run_unfold.
  unfold Table.findUnique, Table.update, Table.delete, Table.deleteMany, Table.create.
  simpl. split; [|split].
  - destruct (find _ (Table.rows (collection d))) as [c|]; simpl; [|left; now repeat split].
    right. destruct (storable (CreateCollectionStoryInput.authors cs)) eqn:Hfit; simpl.
    + right. apply storable_fit in Hfit.
      destruct (createStoryAuthors _ _ _). simpl. eauto.
    + left. apply not_storable_fit in Hfit. eauto.
  - destruct (find _ (Table.rows (collectionStory d))) as [s|] eqn:Hf; simpl;
      [|left; now repeat split].
    right. rewrite Hf. simpl.
    destruct (storable (UpdateCollectionStoryInput.authors us)) eqn:Hfit; simpl.
    + right. apply storable_fit in Hfit.
      destruct (createStoryAuthors _ _ _). simpl. eauto.
    + left. apply not_storable_fit in Hfit. do 2 eexists.
      split; [reflexivity|]. split; [assumption|]. split; [reflexivity|].
      split; [apply filter_negb_filter | reflexivity].
  - destruct (find _ (Table.rows (collectionStory d))) as [s|] eqn:Hf; simpl;
      [|left; now repeat split].
    right. rewrite Hf. simpl. eauto.
Qed.

(** A [sortOrder] beyond the 32-bit range, on the story of the examples: the
    update throws, and donny, the author the story had, is gone. *)
Example updateCollectionStory_partial_test :
  let data := UpdateCollectionStoryInput.mk "s-1" "https://getpocket.com" "a story"
                "all about how" undefined
                [CollectionStoryAuthorInput.mk "walter" 2147483648] undefined in
  let r := run (updateCollectionStory String.leb data) sampleDb in
  story_joins 1 sampleDb = [donny]
  /\ fst r = Throw P2020
  /\ story_joins 1 (store r) = []
  /\ Table.rows (collectionStory (store r)) = [a_story].
Proof. repeat split. Qed.

(** ** Deleting a story: what is left *)

(** [deleteCollectionStory] on a story that exists removes, of the join rows,
    those of that story and no other, and touches no collection, author or
    image; no table's counter moves. *)
Theorem deleteCollectionStory_frame (externalId : string) (d : Db)
    (story : CollectionStory.t) (authors : list CollectionStoryAuthor.t) :
  fst (run (getCollectionStory externalId) d) = Ok (Some (story, authors)) ->
  let r := run (deleteCollectionStory externalId) d in
  Table.rows (collectionStoryAuthor (store r))
  = filter (fun a => negb (CollectionStoryAuthor.collectionStoryId a
                           =? CollectionStory.id story))
           (Table.rows (collectionStoryAuthor d))
  /\ (forall other, other <> CollectionStory.id story ->
        story_joins other (store r) = story_joins other d)
  /\ Table.nextId (collectionStoryAuthor (store r)) = Table.nextId (collectionStoryAuthor d)
  /\ Table.nextId (collectionStory (store r)) = Table.nextId (collectionStory d)
  /\ collection (store r) = collection d
  /\ collectionAuthor (store r) = collectionAuthor d
  /\ image (store r) = image d.
Proof.
  intros Hget r. subst r. unfold deleteCollectionStory, story_joins in *. run_unfold.
  unfold Table.findUnique, Table.delete in *. simpl in *.
  destruct (find _ (Table.rows (collectionStory d))) as [s|] eqn:Hfind; [|discriminate].
  injection Hget as -> _. simpl. rewrite Hfind. simpl.
  repeat split. intros other Hother. apply filter_filter_negb.
  intros j Hj. apply Z.eqb_eq in Hj. apply Z.eqb_neq. congruence.
Qed.

Lemma deleteCollectionStory_frame_witness :
  let r := run (deleteCollectionStory "s-1") sampleDb in
  Table.rows (collectionStoryAuthor (store r)) = []
  /\ collection (store r) = collection sampleDb
  /\ collectionAuthor (store r) = collectionAuthor sampleDb
  /\ image (store r) = image sampleDb.
Proof.
  destruct (deleteCollectionStory_frame "s-1" sampleDb a_story [donny] eq_refl)
    as [Hj [_ [_ [_ [Hc [Ha Hi]]]]]].
  repeat split; assumption.
Defined.

Definition story_externalIds (d : Db) : list string :=
  map CollectionStory.externalId (Table.rows (collectionStory d)).

(** With distinct external identifiers, a story deleted is not found any more:
    the lookup by its identifier returns nothing, and a second
    [deleteCollectionStory] throws the [TypeError] of the missing record. *)
Theorem deleteCollectionStory_then_gone (externalId : string) (d : Db)
    (found : CollectionStoryWithAuthors) :
  NoDup (story_externalIds d) ->
  fst (run (getCollectionStory externalId) d) = Ok (Some found) ->
  let r := run (deleteCollectionStory externalId) d in
  fst r = Ok found
  /\ fst (run (getCollectionStory externalId) (store r)) = Ok None
  /\ fst (run (deleteCollectionStory externalId) (store r)) = Throw (TypeError "id").
Proof.
  intros Hnd Hget r. subst r. unfold deleteCollectionStory, story_externalIds in *.
  run_unfold. unfold Table.findUnique, Table.delete in *. simpl in *.
  destruct (find _ (Table.rows (collectionStory d))) as [s|] eqn:Hfind; [|discriminate].
  injection Hget as <-. simpl. rewrite Hfind. simpl.
  destruct (removeFirst_find_split _ _ _ Hfind) as [l1 [l2 [Hl [Hr Hl1]]]].
  pose proof (find_some _ _ Hfind) as [_ Hext]. apply String.eqb_eq in Hext.
  assert (Hgone : find (fun x => String.eqb (CollectionStory.externalId x) externalId)
                    (Table.removeFirst
                       (fun x => String.eqb (CollectionStory.externalId x) externalId)
                       (Table.rows (collectionStory d))) = None).
  { rewrite Hr. rewrite Hl, map_app in Hnd. simpl in Hnd.
    apply NoDup_remove_2 in Hnd.
    destruct (find _ (l1 ++ l2)) as [y|] eqn:Hy; [|reflexivity].
    apply find_some in Hy. destruct Hy as [Hin Hye]. apply String.eqb_eq in Hye.
    exfalso. apply Hnd. rewrite <- map_app. apply in_map_iff. exists y.
    split; [congruence | assumption]. }
  rewrite Hgone. simpl. repeat split.
Qed.

Lemma deleteCollectionStory_then_gone_witness :
  let r := run (deleteCollectionStory "s-1") sampleDb in
  fst r = Ok (a_story, [donny])
  /\ fst (run (getCollectionStory "s-1") (store r)) = Ok None
  /\ fst (run (deleteCollectionStory "s-1") (store r)) = Throw (TypeError "id").
Proof.
  apply (deleteCollectionStory_then_gone "s-1" sampleDb (a_story, [donny])).
  - repeat constructor. simpl. tauto.
  - reflexivity.
Defined.

(** ** Images: associating again *)

Lemma find_at {R} (q : R -> bool) (l1 l2 : list R) (x : R) :
  (forall y, In y l1 -> q y = false) -> q x = true ->
  find q (l1 ++ x :: l2) = Some x.
Proof.
  intros H Hx. rewrite find_app_skip by assumption. simpl. now rewrite Hx.
Qed.

Lemma replaceFirst_at {R} (q : R -> bool) (f : R -> R) (l1 l2 : list R) (x : R) :
  (forall y, In y l1 -> q y = false) -> q x = true ->
  Table.replaceFirst q f (l1 ++ x :: l2) = l1 ++ f x :: l2.
Proof.
  intros H Hx. induction l1 as [|y l1 IH]; simpl.
  - now rewrite Hx.
  - rewrite (H y) by now left. f_equal. apply IH. intros z Hz. apply H. now right.
Qed.

(** The image rows before the row [x] have another id than [x], the ids being
    distinct. *)
Lemma ids_before (l1 l2 : list Image.t) (x : Image.t) :
  NoDup (map Image.id (l1 ++ x :: l2)) ->
  forall y, In y l1 -> (Image.id y =? Image.id x) = false.
Proof.
  intros Hnd y Hy. apply Z.eqb_neq. intros Heq.
  rewrite map_app in Hnd. simpl in Hnd. apply NoDup_remove_2 in Hnd.
  apply Hnd. apply in_or_app. left. rewrite <- Heq. now apply in_map.
Qed.

(** What [associateImageWithEntity] leaves when the image is there. *)
Lemma associateImageWithEntity_at (entity : Entity.t) (entityType : ImageEntityType)
    (url : string) (l1 l2 : list Image.t) (i : Image.t) (d : Db) :
  Entity.imageUrl entity = Some url ->
  url <> EmptyString ->
  Table.rows (image d) = l1 ++ i :: l2 ->
  (forall y, In y l1 -> String.eqb (Image.path y) url = false) ->
  Image.path i = url ->
  NoDup (map Image.id (Table.rows (image d))) ->
  let updated := Image.mk (Image.id i) (Image.path i)
                   (Some (Entity.id entity)) (Some entityType) in
  fst (run (associateImageWithEntity entity entityType) d) = Ok (Some updated)
  /\ store (run (associateImageWithEntity entity entityType) d)
     = set_image (Table.mk (l1 ++ updated :: l2) (Table.nextId (image d))) d.
Proof.
  intros Hu Hne Hl Hbefore Hp Hnd. unfold associateImageWithEntity. rewrite Hu.
  apply String.eqb_neq in Hne. rewrite Hne. run_unfold.
  unfold Table.findUnique, Table.update. rewrite Hl in *.
  rewrite (find_at _ l1 l2 i) by (auto; now apply String.eqb_eq). simpl.
  rewrite !Hl.
  rewrite (find_at _ l1 l2 i) by (try apply Z.eqb_refl; now apply ids_before with l2).
  simpl.
  rewrite replaceFirst_at by (try apply Z.eqb_refl; now apply ids_before with l2).
  now split.
Qed.

(** Associating is last-writer-wins, and so idempotent: after an image has
    been associated with an entity, associating the same [imageUrl] with a
    second entity gives the result and the store that the second association
    alone would have given (the ids of the images being distinct). No test is
    made that the image already has an owner. *)
Theorem associateImageWithEntity_last_wins (e1 e2 : Entity.t)
    (t1 t2 : ImageEntityType) (d : Db) :
  NoDup (map Image.id (Table.rows (image d))) ->
  Entity.imageUrl e1 = Entity.imageUrl e2 ->
  let d1 := store (run (associateImageWithEntity e1 t1) d) in
  fst (run (associateImageWithEntity e2 t2) d1)
  = fst (run (associateImageWithEntity e2 t2) d)
  /\ store (run (associateImageWithEntity e2 t2) d1)
     = store (run (associateImageWithEntity e2 t2) d).
Proof.
  intros Hnd Hurl.
  destruct (Entity.imageUrl e2) as [url|] eqn:Hu2.
  2:{ simpl. unfold associateImageWithEntity. rewrite Hurl, Hu2. now run_unfold. }
  destruct (String.eqb url EmptyString) eqn:Hne.
  { simpl. unfold associateImageWithEntity. rewrite Hurl, Hu2, Hne. now run_unfold. }
  apply String.eqb_neq in Hne.
  destruct (find (fun i => String.eqb (Image.path i) url) (Table.rows (image d)))
    as [i|] eqn:Hfind.
  - destruct (replaceFirst_find_split _ (fun x => x) _ _ Hfind) as [l1 [l2 [Hl [_ Hl1]]]].
    pose proof (find_some _ _ Hfind) as [_ Hp]. apply String.eqb_eq in Hp.
    destruct (associateImageWithEntity_at e1 t1 url l1 l2 i d Hurl Hne Hl Hl1 Hp Hnd)
      as [_ Hs1].
    destruct (associateImageWithEntity_at e2 t2 url l1 l2 i d Hu2 Hne Hl Hl1 Hp Hnd)
      as [Hf2 Hs2].
    simpl. rewrite Hs1, Hf2, Hs2.
    match goal with |- context [set_image (Table.mk (l1 ++ ?u :: l2) ?n) d] =>
      destruct (associateImageWithEntity_at e2 t2 url l1 l2 u
                  (set_image (Table.mk (l1 ++ u :: l2) n) d) Hu2 Hne eq_refl Hl1 Hp)
        as [Hf Hs]
    end.
    + simpl. rewrite Hl in Hnd. rewrite map_app in *. exact Hnd.
    + simpl in *. rewrite Hf, Hs. split; reflexivity.
  - assert (Hd1 : store (run (associateImageWithEntity e1 t1) d) = d).
    { unfold associateImageWithEntity. rewrite Hurl.
      apply String.eqb_neq in Hne. rewrite Hne. run_unfold.
      unfold Table.findUnique. now rewrite Hfind. }
    simpl. rewrite Hd1. now split.
Qed.

Lemma associateImageWithEntity_last_wins_witness :
  let story := Entity.mk 1 (Some "https://some.image"%string) in
  let author := Entity.mk 2 (Some "https://some.image"%string) in
  let d1 := store (run (associateImageWithEntity story COLLECTION_STORY) sampleDb) in
  fst (run (associateImageWithEntity author COLLECTION_AUTHOR) d1)
  = Ok (Some (Image.mk 1 "https://some.image" (Some 2) (Some COLLECTION_AUTHOR))).
Proof.
  assert (Hnd : NoDup (map Image.id (Table.rows (image sampleDb)))).
  { repeat constructor; simpl; intuition discriminate. }
  destruct (associateImageWithEntity_last_wins
              (Entity.mk 1 (Some "https://some.image"%string))
              (Entity.mk 2 (Some "https://some.image"%string))
              COLLECTION_STORY COLLECTION_AUTHOR sampleDb Hnd eq_refl) as [Hf _].
  intros story author d1. subst story author d1. exact (eq_trans Hf eq_refl).
Defined.

(** ** References between the tables *)

(** Every join row belongs to a story of the store, every story to a
    collection of the store, and every author connected to a collection is an
    author of the store. *)
Definition joins_have_stories (d : Db) : Prop :=
  forall j, In j (Table.rows (collectionStoryAuthor d)) ->
    In (CollectionStoryAuthor.collectionStoryId j)
       (map CollectionStory.id (Table.rows (collectionStory d))).

Definition stories_have_collections (d : Db) : Prop :=
  forall s, In s (Table.rows (collectionStory d)) ->
    In (CollectionStory.collectionId s) (map Collection.id (Table.rows (collection d))).

Definition collections_have_authors (d : Db) : Prop :=
  forall c, In c (Table.rows (collection d)) ->
    forall a, In a (Collection.authors c) ->
      In a (map CollectionAuthor.id (Table.rows (collectionAuthor d))).

Definition references_hold (d : Db) : Prop :=
  joins_have_stories d /\ stories_have_collections d /\ collections_have_authors d.

Lemma references_createAuthor slugify uuid data d :
  references_hold d -> references_hold (store (run (createAuthor slugify uuid data) d)).
Proof.
  intros [Hj [Hs Hc]].
  destruct (createAuthor_cases slugify uuid data d) as [[e [_ ->]]|[_ [_ ->]]];
    [now repeat split|].
  split; [|split]; [exact Hj | exact Hs |].
  intros c Hin a Ha. simpl. rewrite map_app. apply in_or_app. left. now apply (Hc c).
Qed.

Lemma references_updateAuthor data d :
  references_hold d -> references_hold (store (run (updateAuthor data) d)).
Proof.
  intros [Hj [Hs Hc]]. unfold updateAuthor.
  destruct (UpdateCollectionAuthorInput.externalId data) as [e|]; [|now repeat split].
  destruct (String.eqb e EmptyString); [now repeat split|].
  run_unfold. unfold Table.count, Table.update.
  destruct (0 <? _)%nat; simpl; [now repeat split|].
  destruct (find _ _) as [a|]; simpl; [|now repeat split].
  split; [|split]; [exact Hj | exact Hs |].
  intros c Hin x Hx. simpl. rewrite map_replaceFirst by reflexivity. now apply (Hc c).
Qed.

Lemma references_createCollection uuid data d :
  references_hold d -> references_hold (store (run (createCollection uuid data) d)).
Proof.
  intros [Hj [Hs Hc]].
  destruct (createCollection_cases uuid data d) as [[e [_ ->]]|[a [_ [Ha [_ ->]]]]];
    [now repeat split|].
  apply find_some in Ha. destruct Ha as [Ha _].
  split; [|split]; [exact Hj | |].
  - intros s Hin. simpl. rewrite map_app. apply in_or_app. left. now apply Hs.
  - intros c Hin x Hx. simpl in *. apply in_app_or in Hin. destruct Hin as [Hin|[<-|[]]].
    + now apply (Hc c).
    + simpl in Hx. destruct Hx as [<-|[]]. now apply in_map.
Qed.

Lemma references_updateCollection now data d :
  references_hold d -> references_hold (store (run (updateCollection now data) d)).
Proof.
  intros [Hj [Hs Hc]].
  destruct (updateCollection_cases now data d)
    as [[e [_ ->]]|[existing [a [_ [_ [Ha [_ ->]]]]]]]; [now repeat split|].
  apply find_some in Ha. destruct Ha as [Ha _].
  split; [|split]; [exact Hj | |].
  - intros s Hin. simpl. rewrite map_replaceFirst by reflexivity. now apply Hs.
  - intros c Hin x Hx. simpl in *. apply replaceFirst_In in Hin.
    destruct Hin as [Hin|[r [_ ->]]].
    + now apply (Hc c).
    + simpl in Hx. destruct Hx as [<-|[]]. now apply in_map.
Qed.

Lemma references_createCollectionStory name_asc uuid data d :
  references_hold d ->
  references_hold (store (run (createCollectionStory name_asc uuid data) d)).
Proof.
  intros [Hj [Hs Hc]]. unfold createCollectionStory. run_unfold.
  unfold Table.findUnique, Table.create. simpl.
  destruct (find _ (Table.rows (collection d))) as [c|] eqn:Hf; simpl; [|now repeat split].
  destruct (storable _); simpl; [|now repeat split].
  apply find_some in Hf. destruct Hf as [Hin _].
  pose proof (createStoryAuthors_spec (Table.nextId (collectionStory d))
                (CreateCollectionStoryInput.authors data) (collectionStoryAuthor d))
    as [Hrows [_ [_ Hsid]]].
  destruct (createStoryAuthors _ _ _) as [joins authors]. simpl in *.
  split; [|split]; [| |exact Hc].
  - intros j Hjn. simpl in *. rewrite Hrows in Hjn. rewrite map_app.
    apply in_or_app. apply in_app_or in Hjn. destruct Hjn as [Hjn|Hjn].
    + left. now apply Hj.
    + right. simpl. left. symmetry. now apply Hsid.
  - intros s Hsn. simpl in *. apply in_app_or in Hsn. destruct Hsn as [Hsn|[<-|[]]].
    + now apply Hs.
    + simpl. now apply in_map.
Qed.

Lemma references_updateCollectionStory name_asc data d :
  references_hold d ->
  references_hold (store (run (updateCollectionStory name_asc data) d)).
Proof.
  intros [Hj [Hs Hc]]. unfold updateCollectionStory. run_unfold.
  unfold Table.findUnique, Table.update, Table.deleteMany. simpl.
  destruct (find _ (Table.rows (collectionStory d))) as [x|] eqn:Hf; simpl;
    [|now repeat split].
  rewrite Hf. simpl.
  destruct (storable _); simpl.
  2:{ split; [|split]; [|exact Hs|exact Hc].
      intros j Hjn. simpl in *. apply filter_In in Hjn. now apply Hj. }
  match goal with |- context [createStoryAuthors ?i ?l ?tb] =>
    pose proof (createStoryAuthors_spec i l tb) as [Hrows [_ [_ Hsid]]];
    destruct (createStoryAuthors i l tb) as [joins authors]
  end.
  simpl in *. pose proof (find_some _ _ Hf) as [Hx _].
  split; [|split]; [| |exact Hc].
  - intros j Hjn. simpl in *. rewrite map_replaceFirst by reflexivity.
    rewrite Hrows in Hjn. apply in_app_or in Hjn. destruct Hjn as [Hjn|Hjn].
    + apply filter_In in Hjn. now apply Hj.
    + rewrite (Hsid j Hjn). now apply in_map.
  - intros s Hsn. simpl in *. apply replaceFirst_In in Hsn.
    destruct Hsn as [Hsn|[r [Hr ->]]].
    + now apply Hs.
    + simpl. apply Hs. rewrite Hf in Hr. now injection Hr as <-.
Qed.

Lemma references_deleteCollectionStory externalId d :
  references_hold d -> references_hold (store (run (deleteCollectionStory externalId) d)).
Proof.
  intros [Hj [Hs Hc]]. unfold deleteCollectionStory. run_unfold.
  unfold Table.findUnique, Table.delete, Table.deleteMany. simpl.
  destruct (find _ (Table.rows (collectionStory d))) as [x|] eqn:Hf; simpl;
    [|now repeat split].
  rewrite Hf. simpl.
  destruct (removeFirst_find_split _ _ _ Hf) as [l1 [l2 [Hl [Hr _]]]].
  split; [|split]; [| |exact Hc].
  - intros j Hjn. simpl in *. apply filter_In in Hjn. destruct Hjn as [Hjn Hne].
    apply negb_true_iff, Z.eqb_neq in Hne.
    specialize (Hj j Hjn). rewrite Hr. rewrite Hl in Hj.
    rewrite map_app in *. simpl in Hj. apply in_or_app.
    apply in_app_or in Hj. destruct Hj as [Hj|[Hj|Hj]]; auto. congruence.
  - intros s Hsn. simpl in *. apply Hs. rewrite Hr in Hsn. rewrite Hl.
    apply in_or_app. apply in_app_or in Hsn. destruct Hsn; [now left | right; now right].
Qed.

Lemma references_associateImageWithEntity entity entityType d :
  references_hold d ->
  references_hold (store (run (associateImageWithEntity entity entityType) d)).
Proof.
  intros H. unfold associateImageWithEntity.
  destruct (Entity.imageUrl entity) as [url|]; [|exact H].
  destruct (String.eqb url EmptyString); [exact H|].
  run_unfold. unfold Table.findUnique, Table.update.
  destruct (find _ (Table.rows (image d))) as [i|]; simpl; [|exact H].
  destruct (find _ (Table.rows (image d))) as [i'|]; simpl; exact H.
Qed.

(** Every mutation keeps the references between the tables: if, before the
    call, every join row belongs to a story, every story to a collection, and
    every author connected to a collection is in the table of authors, the
    same holds after the call, whether it returns or throws. In particular
    [deleteCollectionStory] leaves no join row behind, and
    [createCollectionStory] never attaches a story to a collection that is not
    there. *)
Theorem references_stay (slugify : string -> string)
    (name_asc : string -> string -> bool) (uuid : string) (now : Date)
    (ca : CreateCollectionAuthorInput.t) (ua : UpdateCollectionAuthorInput.t)
    (cc : CreateCollectionInput.t) (uc : UpdateCollectionInput.t)
    (cs : CreateCollectionStoryInput.t) (us : UpdateCollectionStoryInput.t)
    (externalId : string) (entity : Entity.t) (entityType : ImageEntityType) (d : Db) :
  references_hold d ->
  references_hold (store (run (createAuthor slugify uuid ca) d))
  /\ references_hold (store (run (updateAuthor ua) d))
  /\ references_hold (store (run (createCollection uuid cc) d))
  /\ references_hold (store (run (updateCollection now uc) d))
  /\ references_hold (store (run (createCollectionStory name_asc uuid cs) d))
  /\ references_hold (store (run (updateCollectionStory name_asc us) d))
  /\ references_hold (store (run (deleteCollectionStory externalId) d))
  /\ references_hold (store (run (associateImageWithEntity entity entityType) d)).
Proof.
  intros H.
  split; [apply references_createAuthor, H|].
  split; [apply references_updateAuthor, H|].
  split; [apply references_createCollection, H|].
  split; [apply references_updateCollection, H|].
  split; [apply references_createCollectionStory, H|].
  split; [apply references_updateCollectionStory, H|].
  split; [apply references_deleteCollectionStory, H|].
  apply references_associateImageWithEntity, H.
Qed.

Lemma references_stay_witness :
  references_hold (store (run (deleteCollectionStory "s-1") sampleDb))
  /\ references_hold
       (store (run (createCollectionStory String.leb "s-2"
                      (CreateCollectionStoryInput.mk "c-2" "https://getpocket.com/2"
                         "another story" "and so on" None
                         [CollectionStoryAuthorInput.mk "walter" 0] None)) sampleDb)).
Proof.
  assert (H : references_hold sampleDb).
  { split; [|split].
    - intros j [<-|[]]. simpl. tauto.
    - intros s [<-|[]]. simpl. tauto.
    - intros c [<-|[<-|[]]] a [<-|[]]; simpl; tauto. }
  pose proof (references_stay slugify_ascii String.leb "s-2" 7
                (CreateCollectionAuthorInput.mk "Donny" None None None)
                (UpdateCollectionAuthorInput.mk (Some "a-2"%string) "walter" "walter" undefined undefined)
                (CreateCollectionInput.mk "walter-bowls" "walter bowls" None None "a-2")
                (UpdateCollectionInput.mk "c-2" "phone-is-ringing" "phone" None undefined "a-2")
                (CreateCollectionStoryInput.mk "c-2" "https://getpocket.com/2"
                   "another story" "and so on" None
                   [CollectionStoryAuthorInput.mk "walter" 0] None)
                (UpdateCollectionStoryInput.mk "s-1" "https://getpocket.com" "a story"
                   "all about how" undefined [] undefined)
                "s-1" (Entity.mk 1 None) COLLECTION sampleDb H)
    as [_ [_ [_ [_ [Hcreate [_ [Hdelete _]]]]]]].
  split; [exact Hdelete | exact Hcreate].
Defined.

(** ** A collection from creation to publication *)

Lemma updateCollection_run (now : Date) (data : UpdateCollectionInput.t)
    (existing : Collection.t) (a : CollectionAuthor.t) (d : Db) :
  Table.findUnique
    (fun c => String.eqb (Collection.externalId c) (UpdateCollectionInput.externalId data))
    (collection d) = Some existing ->
  slug_free_for existing (UpdateCollectionInput.slug data) d ->
  Table.findUnique
    (fun a => String.eqb (CollectionAuthor.externalId a)
                (UpdateCollectionInput.authorExternalId data))
    (collectionAuthor d) = Some a ->
  fst (run (updateCollection now data) d)
  = Ok (updatedCollection now data existing (CollectionAuthor.id a) existing)
  /\ store (run (updateCollection now data) d)
     = set_collection
         (Table.mk
            (Table.replaceFirst
               (fun c => String.eqb (Collection.externalId c)
                           (UpdateCollectionInput.externalId data))
               (updatedCollection now data existing (CollectionAuthor.id a))
               (Table.rows (collection d)))
            (Table.nextId (collection d)))
         d.
Proof.
  intros Hget Hfree Ha.
  destruct (updateCollection_cases now data d)
    as [[e [He _]]|[existing' [a' [Hget' [_ [Ha' H]]]]]].
  - exfalso. revert He. unfold updateCollection, slug_free_for in *. run_unfold.
    rewrite Hget. simpl.
    destruct (negb (String.eqb (Collection.slug existing)
                               (UpdateCollectionInput.slug data))) eqn:Eslug; simpl.
    + unfold Table.count.
      match goal with |- context [(0 <? ?n)%nat] =>
        assert (E : (0 <? n)%nat = false) end.
      { apply negb_true_iff, String.eqb_neq in Eslug.
        destruct Hfree as [Hfree|Hfree]; [contradiction|].
        apply filter_none. intros c Hc.
        destruct (String.eqb (Collection.slug c) (UpdateCollectionInput.slug data)) eqn:Es;
          [|reflexivity].
        apply String.eqb_eq in Es. rewrite (Hfree c Hc Es), String.eqb_refl. reflexivity. }
      rewrite E. simpl. unfold connect. rewrite Ha. simpl.
      unfold Table.update. unfold Table.findUnique in Hget. rewrite Hget. discriminate.
    + unfold connect. rewrite Ha. simpl.
      unfold Table.update. unfold Table.findUnique in Hget. rewrite Hget. discriminate.
  - rewrite Hget in Hget'. injection Hget' as <-.
    rewrite Ha in Ha'. injection Ha' as <-. exact H.
Qed.

(** The life of a collection as the integration tests walk it. A collection
    just created from an input that carries neither a status nor a
    [publishedAt] (its generated external identifier being new) is a draft
    with no [publishedAt]; a first update to the published status, under its
    own slug and with no [publishedAt] field, sets [publishedAt] to the time
    of that update; a second such update, at a later time and with another
    title, goes through and keeps the [publishedAt] of the first. *)
Theorem collection_create_publish_update (uuid : string) (now1 now2 : Date)
    (cc : CreateCollectionInput.t) (title1 title2 : string) (c : Collection.t) (d : Db) :
  CreateCollectionInput.status cc = None ->
  CreateCollectionInput.publishedAt cc = None ->
  (forall x, In x (Table.rows (collection d)) -> Collection.externalId x <> uuid) ->
  fst (run (createCollection uuid cc) d) = Ok c ->
  let publish title :=
    UpdateCollectionInput.mk uuid (CreateCollectionInput.slug cc) title (Some published)
      undefined (CreateCollectionInput.authorExternalId cc) in
  let r1 := run (createCollection uuid cc) d in
  let r2 := run (updateCollection now1 (publish title1)) (store r1) in
  let r3 := run (updateCollection now2 (publish title2)) (store r2) in
  Collection.status c = draft
  /\ Collection.publishedAt c = None
  /\ exists c2 c3,
       fst r2 = Ok c2
       /\ Collection.status c2 = published
       /\ Collection.publishedAt c2 = Some now1
       /\ fst r3 = Ok c3
       /\ Collection.status c3 = published
       /\ Collection.publishedAt c3 = Some now1
       /\ Collection.title c3 = title2
       /\ Collection.id c3 = Collection.id c
       /\ Table.rows (collection (store r3)) = Table.rows (collection d) ++ [c3].
Proof.
  intros Hstatus Hpublished Hfresh Hok publish r1 r2 r3. subst r1 r2 r3.
  destruct (createCollection_cases uuid cc d) as [[e [He _]]|[a [_ [Ha [Hc Hstore]]]]];
    [congruence|].
  rewrite Hstatus, Hpublished in Hc, Hstore. simpl in Hc, Hstore.
  rewrite Hok in Hc. injection Hc as ->. rewrite Hstore.
  split; [reflexivity|]. split; [reflexivity|].
  set (c1 := Collection.mk (Table.nextId (collection d)) uuid (CreateCollectionInput.slug cc)
               (CreateCollectionInput.title cc) draft None [CollectionAuthor.id a]) in *.
  set (d1 := set_collection _ d).
  assert (Hskip : forall y, In y (Table.rows (collection d)) ->
            String.eqb (Collection.externalId y) uuid = false).
  { intros y Hy. apply String.eqb_neq. auto. }
  destruct (updateCollection_run now1 (publish title1) c1 a d1) as [Hf2 Hs2].
  { unfold Table.findUnique. simpl. apply find_at; [assumption | apply String.eqb_refl]. }
  { left. reflexivity. }
  { exact Ha. }
  rewrite Hf2, Hs2. simpl.
  rewrite replaceFirst_at by (try assumption; apply String.eqb_refl).
  set (c2 := updatedCollection now1 (publish title1) c1 (CollectionAuthor.id a) c1).
  set (d2 := set_collection _ d1).
  destruct (updateCollection_run now2 (publish title2) c2 a d2) as [Hf3 Hs3].
  { unfold Table.findUnique. simpl. apply find_at; [assumption | apply String.eqb_refl]. }
  { left. reflexivity. }
  { exact Ha. }
  rewrite Hf3, Hs3. simpl.
  rewrite replaceFirst_at by (try assumption; apply String.eqb_refl).
  do 2 eexists. repeat split.
Qed.

Lemma collection_create_publish_update_witness :
  let bowls := CreateCollectionInput.mk "walter-bowls" "first iteration" None None "a-2" in
  let publish title :=
    UpdateCollectionInput.mk "c-3" "walter-bowls" title (Some published) undefined "a-2" in
  let r1 := run (createCollection "c-3" bowls) sampleDb in
  let r2 := run (updateCollection 7 (publish "second iteration"%string)) (store r1) in
  let r3 := run (updateCollection 8 (publish "third iteration"%string)) (store r2) in
  exists c2 c3,
    fst r2 = Ok c2 /\ Collection.publishedAt c2 = Some 7
    /\ fst r3 = Ok c3 /\ Collection.publishedAt c3 = Some 7
    /\ Collection.title c3 = "third iteration"%string.
Proof.
  destruct (collection_create_publish_update "c-3" 7 8
              (CreateCollectionInput.mk "walter-bowls" "first iteration" None None "a-2")
              "second iteration" "third iteration"
              (Collection.mk 3 "c-3" "walter-bowls" "first iteration" draft None [2])
              sampleDb eq_refl eq_refl)
    as [_ [_ [c2 [c3 [H2 [_ [Hp2 [H3 [_ [Hp3 [Ht _]]]]]]]]]]].
  - intros x [<-|[<-|[]]]; discriminate.
  - reflexivity.
  - exists c2, c3. repeat split; assumption.
Defined.

(** ** External identifiers *)

Lemma map_replaceFirst_on {R B} (g : R -> B) (p : R -> bool) (f : R -> R) (l : list R) :
  (forall x, p x = true -> g (f x) = g x) ->
  map g (Table.replaceFirst p f l) = map g l.
Proof.
  intros Hg. induction l as [|y l IH]; simpl; [reflexivity|].
  destruct (p y) eqn:E; simpl; [now rewrite Hg | now rewrite IH].
Qed.

Definition externalIds_distinct (d : Db) : Prop :=
  NoDup (author_externalIds d)
  /\ NoDup (collection_externalIds d)
  /\ NoDup (story_externalIds d).

(** No mutation ever gives two authors, two collections or two stories the
    same external identifier: the updates write back the identifier they
    addressed the row by, the creations add the generated one (taken to be
    new), and the deletion only removes. *)
Theorem externalIds_stay_distinct (slugify : string -> string)
    (name_asc : string -> string -> bool) (uuid : string) (now : Date)
    (ca : CreateCollectionAuthorInput.t) (ua : UpdateCollectionAuthorInput.t)
    (cc : CreateCollectionInput.t) (uc : UpdateCollectionInput.t)
    (cs : CreateCollectionStoryInput.t) (us : UpdateCollectionStoryInput.t)
    (externalId : string) (d : Db) :
  externalIds_distinct d ->
  ~ In uuid (author_externalIds d) ->
  ~ In uuid (collection_externalIds d) ->
  ~ In uuid (story_externalIds d) ->
  externalIds_distinct (store (run (createAuthor slugify uuid ca) d))
  /\ externalIds_distinct (store (run (updateAuthor ua) d))
  /\ externalIds_distinct (store (run (createCollection uuid cc) d))
  /\ externalIds_distinct (store (run (updateCollection now uc) d))
  /\ externalIds_distinct (store (run (createCollectionStory name_asc uuid cs) d))
  /\ externalIds_distinct (store (run (updateCollectionStory name_asc us) d))
  /\ externalIds_distinct (store (run (deleteCollectionStory externalId) d)).
Proof.
  unfold externalIds_distinct, author_externalIds, collection_externalIds,
    story_externalIds.
  intros [Ha [Hc Hs]] Hua Huc Hus.
  split; [|split; [|split; [|split; [|split; [|split]]]]].
  - destruct (createAuthor_cases slugify uuid ca d) as [[e [_ ->]]|[_ [_ ->]]];
      [now repeat split|].
    simpl. split; [|now split]. rewrite map_app. now apply NoDup_snoc.
  - unfold updateAuthor.
    destruct (UpdateCollectionAuthorInput.externalId ua) as [e|]; [|now repeat split].
    destruct (String.eqb e EmptyString); [now repeat split|].
    run_unfold. unfold Table.count, Table.update.
    destruct (0 <? _)%nat; simpl; [now repeat split|].
    destruct (find _ _) as [a|]; simpl; [|now repeat split].
    split; [|now split]. rewrite map_replaceFirst_on; [assumption|].
    intros x Hx. apply String.eqb_eq in Hx. now rewrite Hx.
  - destruct (createCollection_cases uuid cc d) as [[e [_ ->]]|[a [_ [_ [_ ->]]]]];
      [now repeat split|].
    simpl. split; [assumption|]. split; [|assumption].
    rewrite map_app. now apply NoDup_snoc.
  - destruct (updateCollection_cases now uc d)
      as [[e [_ ->]]|[existing [a [_ [_ [_ [_ ->]]]]]]]; [now repeat split|].
    simpl. split; [assumption|]. split; [|assumption].
    rewrite map_replaceFirst_on; [assumption|].
    intros x Hx. apply String.eqb_eq in Hx. now rewrite Hx.
  - unfold createCollectionStory. run_unfold. unfold Table.findUnique, Table.create. simpl.
    destruct (find _ (Table.rows (collection d))); simpl; [|now repeat split].
    destruct (storable _); simpl; [|now repeat split].
    destruct (createStoryAuthors _ _ _). simpl.
    split; [assumption|]. split; [assumption|]. rewrite map_app. now apply NoDup_snoc.
  - unfold updateCollectionStory. run_unfold.
    unfold Table.findUnique, Table.update, Table.deleteMany. simpl.
    destruct (find _ (Table.rows (collectionStory d))) as [x|] eqn:Hf; simpl;
      [|now repeat split].
    rewrite Hf. simpl. destruct (storable _); simpl; [|now repeat split].
    destruct (createStoryAuthors _ _ _). simpl.
    split; [assumption|]. split; [assumption|].
    rewrite map_replaceFirst_on; [assumption|].
    intros y Hy. apply String.eqb_eq in Hy. now rewrite Hy.
  - unfold deleteCollectionStory. run_unfold.
    unfold Table.findUnique, Table.delete, Table.deleteMany. simpl.
    destruct (find _ (Table.rows (collectionStory d))) as [x|] eqn:Hf; simpl;
      [|now repeat split].
    rewrite Hf. simpl. split; [assumption|]. split; [assumption|].
    destruct (removeFirst_find_split _ _ _ Hf) as [l1 [l2 [Hl [-> _]]]].
    rewrite Hl, map_app in Hs. simpl in Hs. apply NoDup_remove_1 in Hs.
    now rewrite map_app.
Qed.

Lemma externalIds_stay_distinct_witness :
  externalIds_distinct
    (store (run (createCollectionStory String.leb "s-2"
                   (CreateCollectionStoryInput.mk "c-2" "https://getpocket.com/2"
                      "another story" "and so on" None [] None)) sampleDb))
  /\ externalIds_distinct
       (store (run (updateAuthor
                      (UpdateCollectionAuthorInput.mk (Some "a-2"%string) "walter"
                         "his-dudeness" undefined undefined)) sampleDb)).
Proof.
  assert (H : externalIds_distinct sampleDb).
  { repeat split; repeat constructor; simpl; intuition discriminate. }
  destruct (externalIds_stay_distinct slugify_ascii String.leb "s-2" 7
              (CreateCollectionAuthorInput.mk "Donny" None None None)
              (UpdateCollectionAuthorInput.mk (Some "a-2"%string) "walter"
                 "his-dudeness" undefined undefined)
              (CreateCollectionInput.mk "walter-bowls" "walter bowls" None None "a-2")
              (UpdateCollectionInput.mk "c-2" "phone-is-ringing" "phone" None undefined "a-2")
              (CreateCollectionStoryInput.mk "c-2" "https://getpocket.com/2"
                 "another story" "and so on" None [] None)
              (UpdateCollectionStoryInput.mk "s-1" "https://getpocket.com" "a story"
                 "all about how" undefined [] undefined)
              "s-1" sampleDb H)
    as [_ [Hu [_ [_ [Hc _]]]]].
  - simpl. intuition discriminate.
  - simpl. intuition discriminate.
  - simpl. intuition discriminate.
  - split; [exact Hc | exact Hu].
Defined.
